(** * Heading inference engine of [Challenge_1b/process_pdfs.py]

    A shallow embedding of the outline extractor and the properties of its
    specification that were checked against it.

    Conventions of the embedding.
    - A Python [str] is a list of Unicode code points ([text := list N]).
    - A Python [float] (font size, coordinate, score) is a rational [Q]:
      every finite float is one, and [<], [>=], [==] on finite floats are
      the order and equality of the rationals ([Qlt], [Qle], [Qeq]).  The
      rounding of the one division of the program (the line average) is not
      modelled, and no property below depends on it.
    - A Python [int] is a [Z].
    - The Unicode character database (decimal digits, letters, case) is an
      interface, [UnicodeData]; only its ASCII part is fixed.  White space
      ([str.isspace], [str.strip], the class [\s]) is a short table and is
      written out in full.
    - The state of an extractor object (its [font_size_threshold] dict) is
      passed explicitly. *)

From Stdlib Require Import String Ascii ZArith NArith QArith Qabs Lia Bool List.
From Stdlib Require Import Sorted SetoidList SetoidPermutation.
From stdpp Require Import gmap.
Import ListNotations.


(** ** Text *)

Definition text := list N.

Definition cp_of_ascii (a : ascii) : N := N_of_ascii a.

(** An ASCII literal of the source, as code points. *)
Fixpoint cp (s : string) : text :=
  match s with
  | EmptyString => []
  | String a s' => cp_of_ascii a :: cp s'
  end.

Definition in_range (lo hi c : N) : bool := ((lo <=? c) && (c <=? hi))%N.

(** [str.isspace] of one character, as in CPython's [_PyUnicode_IsWhitespace];
    the regular-expression class [\s] of a [str] pattern is the same set. *)
Definition is_space (c : N) : bool :=
  in_range 9 13 c || in_range 28 32 c || (c =? 133)%N || (c =? 160)%N
  || (c =? 5760)%N || in_range 8192 8202 c || (c =? 8232)%N || (c =? 8233)%N
  || (c =? 8239)%N || (c =? 8287)%N || (c =? 12288)%N.

Definition ascii_decimal (c : N) : bool := in_range 48 57 c.
Definition ascii_upper (c : N) : bool := in_range 65 90 c.
Definition ascii_lower (c : N) : bool := in_range 97 122 c.
Definition ascii_alpha (c : N) : bool := ascii_upper c || ascii_lower c.
Definition ascii_tolower (c : N) : N := if ascii_upper c then (c + 32)%N else c.
Definition ascii_toupper (c : N) : N := if ascii_lower c then (c - 32)%N else c.

(** The part of the Unicode database the program consults through [re] and
    the [str] methods.  Below 128 every table is the ASCII one. *)
Class UnicodeData := {
  uni_decimal : N -> bool;      (* category Nd: the class \d *)
  uni_alpha : N -> bool;        (* str.isalpha, per character *)
  uni_isupper : N -> bool;      (* str.isupper, per character *)
  uni_islower : N -> bool;      (* str.islower, per character *)
  uni_istitle : N -> bool;      (* str.istitle, per character *)
  uni_tolower : N -> N;         (* simple lower-case mapping, used by re.I *)
  uni_toupper : N -> N;         (* simple upper-case mapping, used by re.I *)
  uni_lower_full : N -> text;   (* full lower-case mapping, used by str.lower *)
  uni_decimal_ascii : forall c, (c < 128)%N -> uni_decimal c = ascii_decimal c;
  uni_alpha_ascii : forall c, (c < 128)%N -> uni_alpha c = ascii_alpha c;
  uni_isupper_ascii : forall c, (c < 128)%N -> uni_isupper c = ascii_upper c;
  uni_islower_ascii : forall c, (c < 128)%N -> uni_islower c = ascii_lower c;
  uni_istitle_ascii : forall c, (c < 128)%N -> uni_istitle c = false;
  uni_tolower_ascii : forall c, (c < 128)%N -> uni_tolower c = ascii_tolower c;
  uni_toupper_ascii : forall c, (c < 128)%N -> uni_toupper c = ascii_toupper c;
  uni_lower_full_ascii :
    forall c, (c < 128)%N -> uni_lower_full c = [ascii_tolower c]
}.

(** The database that knows ASCII only; it shows the interface is inhabited
    and serves to evaluate the program on ASCII inputs. *)
#[refine] Instance ascii_only : UnicodeData := {
  uni_decimal c := (c <? 128)%N && ascii_decimal c;
  uni_alpha c := (c <? 128)%N && ascii_alpha c;
  uni_isupper c := (c <? 128)%N && ascii_upper c;
  uni_islower c := (c <? 128)%N && ascii_lower c;
  uni_istitle c := false;
  uni_tolower c := if (c <? 128)%N then ascii_tolower c else c;
  uni_toupper c := if (c <? 128)%N then ascii_toupper c else c;
  uni_lower_full c := [if (c <? 128)%N then ascii_tolower c else c]
}.
Proof.
  all: intros c Hc; apply N.ltb_lt in Hc; cbv beta; rewrite ?Hc; reflexivity.
Defined.

Definition is_ascii (s : text) : bool := forallb (fun c => (c <? 128)%N) s.

Fixpoint drop_while {A} (p : A -> bool) (l : list A) : list A :=
  match l with
  | [] => []
  | x :: l' => if p x then drop_while p l' else l
  end.

(** [str.strip()] with no argument. *)
Definition lstrip (s : text) : text := drop_while is_space s.
Definition rstrip (s : text) : text := rev (drop_while is_space (rev s)).
Definition strip (s : text) : text := rstrip (lstrip s).

(** [len(s)] *)
Definition len (s : text) : Z := Z.of_nat (length s).

Section WithUnicode.
Context {U : UnicodeData}.

(** [str.isalpha()]: non-empty and every character alphabetic. *)
Definition isalpha (s : text) : bool :=
  negb (Nat.eqb (length s) 0) && forallb uni_alpha s.

(** [str.lower()], character by character.  (Python lower-cases a capital
    sigma at the end of a word to the final form; the program only looks for
    ASCII words in the result, which this does not affect.) *)
Definition lower (s : text) : text := flat_map uni_lower_full s.

(** [str.isupper()]: no lower-case or title-case character and at least one
    upper-case one. *)
Definition isupper (s : text) : bool :=
  forallb (fun c => negb (uni_islower c || uni_istitle c)) s
  && existsb uni_isupper s.

End WithUnicode.

(** [needle in haystack] for strings. *)
Fixpoint starts_with (p s : text) : bool :=
  match p, s with
  | [], _ => true
  | _ :: _, [] => false
  | a :: p', b :: s' => (a =? b)%N && starts_with p' s'
  end.

Fixpoint contains (needle hay : text) : bool :=
  starts_with needle hay ||
  match hay with
  | [] => false
  | _ :: hay' => contains needle hay'
  end.

(** ** Regular expressions

    The patterns of the program use character classes, concatenation,
    alternation (through [?] and bounded repetition) and iteration.  They are
    values of [regex]; [re.match] is decided by derivatives, and [matches]
    is the language a pattern denotes. *)

Inductive atom :=
| ADigit                      (* \d *)
| ASpace                      (* \s *)
| AChar (x : N)               (* a literal *)
| ARange (lo hi : N).         (* lo-hi inside a class *)

Inductive regex :=
| RNone
| REps
| RSet (cs : list atom)       (* one character of the class *)
| RCat (r1 r2 : regex)
| RAlt (r1 r2 : regex)
| RStar (r : regex).

(** A compiled pattern: every pattern of the program starts with [^] (and
    [re.match] anchors at the start anyway); [pat_eol] records a final [$]. *)
Record pattern := { pat_re : regex; pat_eol : bool }.

Definition r_lit (x : N) : regex := RSet [AChar x].
Definition r_opt (r : regex) : regex := RAlt r REps.
Definition r_plus (r : regex) : regex := RCat r (RStar r).

Fixpoint r_str (s : text) : regex :=
  match s with
  | [] => REps
  | x :: s' => RCat (r_lit x) (r_str s')
  end.

(** [r{n,}] *)
Fixpoint r_at_least (n : nat) (r : regex) : regex :=
  match n with
  | O => RStar r
  | S n' => RCat r (r_at_least n' r)
  end.

(** [r{0,n}] *)
Fixpoint r_at_most (n : nat) (r : regex) : regex :=
  match n with
  | O => REps
  | S n' => r_opt (RCat r (r_at_most n' r))
  end.

(** Patterns written with ASCII characters only. *)
Definition atom_ascii (a : atom) : bool :=
  match a with
  | ADigit | ASpace => true
  | AChar x => (x <? 128)%N
  | ARange lo hi => (hi <? 128)%N
  end.

Fixpoint regex_ascii (r : regex) : bool :=
  match r with
  | RNone | REps => true
  | RSet cs => forallb atom_ascii cs
  | RCat r1 r2 | RAlt r1 r2 => regex_ascii r1 && regex_ascii r2
  | RStar r1 => regex_ascii r1
  end.

Definition members (lo hi : N) : list N :=
  map N.of_nat (seq (N.to_nat lo) (S (N.to_nat hi) - N.to_nat lo)).

(** Characters that [re.IGNORECASE] identifies with a lower-case ASCII letter
    although their lower-case mapping differs from it (the entries of
    [sre_compile._equivalences] that involve ASCII). *)
Definition sre_fixes (x : N) : list N :=
  if (x =? 105)%N then [305%N]          (* i, dotless i *)
  else if (x =? 115)%N then [383%N]     (* s, long s *)
  else [].

Section Regex.
Context {U : UnicodeData}.
Variable ic : bool.   (* re.IGNORECASE *)

(** Under [re.IGNORECASE] a literal or range is replaced by the lower-case
    images of its members (and their equivalents), and the subject character
    is lower-cased before the lookup. *)
Definition folded (xs : list N) (c : N) : bool :=
  existsb (fun x => (uni_tolower c =? uni_tolower x)%N
                    || existsb (N.eqb (uni_tolower c)) (sre_fixes (uni_tolower x)))
          xs.

Definition atom_test (a : atom) (c : N) : bool :=
  match a with
  | ADigit => uni_decimal c
  | ASpace => is_space c
  | AChar x => if ic then folded [x] c else (c =? x)%N
  | ARange lo hi => if ic then folded (members lo hi) c else in_range lo hi c
  end.

Definition set_test (cs : list atom) (c : N) : bool :=
  existsb (fun a => atom_test a c) cs.

Inductive matches : regex -> text -> Prop :=
| M_eps : matches REps []
| M_set cs c : set_test cs c = true -> matches (RSet cs) [c]
| M_cat r1 r2 s1 s2 :
    matches r1 s1 -> matches r2 s2 -> matches (RCat r1 r2) (s1 ++ s2)
| M_alt_l r1 r2 s : matches r1 s -> matches (RAlt r1 r2) s
| M_alt_r r1 r2 s : matches r2 s -> matches (RAlt r1 r2) s
| M_star_nil r : matches (RStar r) []
| M_star_cons r c s1 s2 :
    matches r (c :: s1) -> matches (RStar r) s2 ->
    matches (RStar r) (c :: s1 ++ s2).

Fixpoint nullable (r : regex) : bool :=
  match r with
  | RNone => false
  | REps => true
  | RSet _ => false
  | RCat r1 r2 => nullable r1 && nullable r2
  | RAlt r1 r2 => nullable r1 || nullable r2
  | RStar _ => true
  end.

Fixpoint deriv (c : N) (r : regex) : regex :=
  match r with
  | RNone => RNone
  | REps => RNone
  | RSet cs => if set_test cs c then REps else RNone
  | RCat r1 r2 =>
      if nullable r1 then RAlt (RCat (deriv c r1) r2) (deriv c r2)
      else RCat (deriv c r1) r2
  | RAlt r1 r2 => RAlt (deriv c r1) (deriv c r2)
  | RStar r1 => RCat (deriv c r1) (RStar r1)
  end.

(** The whole of [s] is matched. *)
Fixpoint full_match (r : regex) (s : text) : bool :=
  match s with
  | [] => nullable r
  | c :: s' => full_match (deriv c r) s'
  end.

(** Some prefix of [s] is matched. *)
Fixpoint prefix_match (r : regex) (s : text) : bool :=
  nullable r ||
  match s with
  | [] => false
  | c :: s' => prefix_match (deriv c r) s'
  end.

(** A final [$] (without [re.MULTILINE]) holds at the end of the subject and
    just before a newline that ends it. *)
Definition eol_match (r : regex) (s : text) : bool :=
  full_match r s ||
  match rev s with
  | c :: s' => (c =? 10)%N && full_match r (rev s')
  | [] => false
  end.

(** [re.match(p, s)] as a truth value. *)
Definition re_match (p : pattern) (s : text) : bool :=
  if pat_eol p then eol_match (pat_re p) s else prefix_match (pat_re p) s.

End Regex.

(** ** [re.sub]

    The leftmost match is replaced, then the search resumes after it.  Every
    pattern the program passes to [re.sub] is greedy without alternatives of
    different priority, so the match Python's backtracking finds at a
    position is the longest one there; none of them matches the empty string,
    and an empty match is treated as no match. *)

Section Substitution.
Context {U : UnicodeData}.

(** Where [$] holds: at the end, and before a newline that ends the subject. *)
Definition at_eol (s : text) : bool :=
  match s with
  | [] => true
  | [c] => (c =? 10)%N
  | _ => false
  end.

(** Length of the longest prefix of [s] that [r] matches; with [eol], the
    match has to end where [$] holds. *)
Fixpoint longest_match (eol : bool) (r : regex) (s : text) : option nat :=
  let here :=
    if nullable r && (negb eol || at_eol s) then Some O else None in
  match s with
  | [] => here
  | c :: s' =>
      match longest_match eol (deriv false c r) s' with
      | Some n => Some (S n)
      | None => here
      end
  end.

(** [skip] characters of a match are still to be dropped; [at_start] tells
    the scan is at position 0, where alone a pattern that starts with [^]
    can match. *)
Fixpoint sub_scan (anchored : bool) (p : pattern) (repl : text)
         (at_start : bool) (skip : nat) (s : text) : text :=
  match s with
  | [] => []
  | c :: s' =>
      match skip with
      | S k => sub_scan anchored p repl false k s'
      | O =>
          match (if anchored && negb at_start then None
                 else longest_match (pat_eol p) (pat_re p) s) with
          | Some (S n) => repl ++ sub_scan anchored p repl false n s'
          | _ => c :: sub_scan anchored p repl false O s'
          end
      end
  end.

(** [re.sub(p, repl, s)]; [anchored] says the pattern starts with [^]. *)
Definition re_sub (anchored : bool) (p : pattern) (repl s : text) : text :=
  sub_scan anchored p repl true O s.

End Substitution.

(** ** Floats *)

Definition Qlt_bool (a b : Q) : bool := negb (Qle_bool b a).
Definition Qge_bool (a b : Q) : bool := Qle_bool b a.

(** Stable sorting by a strict comparison, as [sorted] and [list.sort] do:
    an element is placed before the first one that is not smaller than it. *)
Section Sorting.
Context {A : Type}.
Variable lt : A -> A -> bool.

Fixpoint insert_sorted (x : A) (l : list A) : list A :=
  match l with
  | [] => [x]
  | y :: l' => if lt y x then y :: insert_sorted x l' else x :: l
  end.

Definition sorted_by (l : list A) : list A := fold_right insert_sorted [] l.

(** [a] may stand before [b] in a sorted list. *)
Definition not_after (a b : A) : Prop := lt b a = false.

End Sorting.

(** [<] on tuples of two floats: the first components decide unless they
    are equal. *)
Definition pairQ_lt (a b : Q * Q) : bool :=
  if negb (Qeq_bool (fst a) (fst b)) then Qlt_bool (fst a) (fst b)
  else Qlt_bool (snd a) (snd b).

(** [<] on tuples [(int, float)]. *)
Definition pairZQ_lt (a b : Z * Q) : bool :=
  if negb (fst a =? fst b)%Z then (fst a <? fst b)%Z
  else Qlt_bool (snd a) (snd b).

(** ** Data model *)

Inductive Level := H1 | H2 | H3.

(** The dataclass [HeadingInfo]. *)
Record HeadingInfo := {
  level : Level;
  htext : text;
  page : Z;
  font_size : Q;
  font_name : text;
  is_bold : bool
}.

(** What PyMuPDF's [page.get_text("dict")] gives for a page. *)
Record Span := {
  span_text : text;
  span_size : Q;
  span_font : text;
  span_flags : option Z         (* the key may be missing *)
}.

Record Line := {
  line_spans : list Span;
  line_top : Q                  (* line["bbox"][1] *)
}.

Record Block := {
  block_lines : option (list Line)   (* image blocks have no "lines" *)
}.

Record Page := {
  page_blocks : list Block;
  page_height : Q                    (* page.rect.height *)
}.

(** A document that [fitz.open] accepted: its pages, each of which may still
    fail to decode when it is read. *)
Definition Document := list (option Page).

(** A file on disk, as the two PDF libraries see it. *)
Record PdfFile := {
  pdf_path : text;
  pdf_metadata_title : option text;   (* PyPDF2: absent on any failure *)
  pdf_document : option Document      (* fitz.open: absent when it raises *)
}.

(** The dict [font_size_threshold] of an extractor object. *)
Record Thresholds := {
  th_title : Q;
  th_h1 : Q;
  th_h2 : Q;
  th_h3 : Q
}.

(** ** Results *)

Record OutlineEntry := {
  oe_level : Level;
  oe_text : text;
  oe_page : Z
}.

(** The dict [{"title": ..., "outline": [...]}]. *)
Record Output := {
  out_title : text;
  out_outline : list OutlineEntry
}.

Record SectionEntry := {
  sec_heading : text;
  sec_page : Z;
  sec_score : Q
}.

(** The dict [{"filename": ..., "sections": [...]}]. *)
Record SingleResult := {
  res_filename : text;
  res_sections : list SectionEntry
}.

(** [os.path.basename] (POSIX flavour): what follows the last slash. *)
Fixpoint basename_aux (cur : text) (s : text) : text :=
  match s with
  | [] => cur
  | c :: s' =>
      if (c =? 47)%N then basename_aux [] s' else basename_aux (cur ++ [c]) s'
  end.

Definition basename (path : text) : text := basename_aux [] path.

(** The sort key [lambda h: (h.page, -h.font_size)] of both assemblers. *)
Definition heading_key (h : HeadingInfo) : Z * Q := (page h, - font_size h).

Definition heading_lt (a b : HeadingInfo) : bool :=
  pairZQ_lt (heading_key a) (heading_key b).

(** A title candidate [(text, font size, y)]. *)
Definition Candidate : Type := text * Q * Q.

Definition cand_text (c : Candidate) : text := fst (fst c).
Definition cand_size (c : Candidate) : Q := snd (fst c).
Definition cand_y (c : Candidate) : Q := snd c.

Definition cand_lt (a b : Candidate) : bool :=
  pairQ_lt (- cand_size a, cand_y a) (- cand_size b, cand_y b).

(** ** [EnhancedPDFOutlineExtractor] *)

Definition bullet_chars : list atom :=
  [AChar 8226; AChar 9642; AChar 9643; AChar 8227; AChar 8259].

(** [^[.\-•▪▫‣⁃]{5,}$] *)
Definition leader_re : pattern :=
  {| pat_re := r_at_least 5 (RSet (AChar 46 :: AChar 45 :: bullet_chars));
     pat_eol := true |}.

(** [^\d{1,2}\.?$] *)
Definition page_number_re : pattern :=
  {| pat_re := RCat (RCat (RSet [ADigit]) (r_at_most 1 (RSet [ADigit])))
                    (r_opt (r_lit 46));
     pat_eol := true |}.

Module EnhancedPDFOutlineExtractor.

Section Methods.
Context {U : UnicodeData}.

Definition is_noise (t : text) : bool :=
  let t := strip t in
  if re_match false leader_re t then true
  else if re_match false page_number_re t then true
  else if (len t <=? 3)%Z && negb (isalpha t) then true
  else false.

(** The loop of [post_process_headings]; [seen] is the set of keys. *)
Fixpoint clean_headings (seen : gset (text * Z)) (headings : list HeadingInfo)
  : list HeadingInfo :=
  match headings with
  | [] => []
  | h :: rest =>
      if is_noise (htext h) then clean_headings seen rest
      else
        let key := (strip (htext h), page h) in
        if decide (key ∈ seen) then clean_headings seen rest
        else h :: clean_headings ({[key]} ∪ seen) rest
  end.

Definition post_process_headings (headings : list HeadingInfo)
  : list HeadingInfo :=
  sorted_by heading_lt (clean_headings ∅ headings).

End Methods.

(** The loop of [merge_title_candidates]: [prev_y] is the position of the
    candidate at index [i-1]. *)
Fixpoint merge_rest (prev_y : Q) (rest : list Candidate) : text :=
  match rest with
  | [] => []
  | c :: rest' =>
      if Qlt_bool (Qabs (cand_y c - prev_y)) 50
      then 32%N :: cand_text c ++ merge_rest (cand_y c) rest'
      else []
  end.

(** [merge_title_candidates]; indexing an empty list raises. *)
Definition merge_title_candidates (cands : list Candidate) : option text :=
  match sorted_by cand_lt cands with
  | [] => None
  | c0 :: rest => Some (strip (cand_text c0 ++ merge_rest (cand_y c0) rest))
  end.

Section MoreMethods.
Context {U : UnicodeData}.

(** [should_skip_page] *)
Definition should_skip_page (page_text : text) : bool :=
  contains (cp "table of contents") (lower page_text).

End MoreMethods.

End EnhancedPDFOutlineExtractor.

(** ** [PDFOutlineExtractor] *)

Module PDFOutlineExtractor.

(** [__init__] *)
Definition init_thresholds : Thresholds :=
  {| th_title := 16; th_h1 := 14; th_h2 := 12; th_h3 := 10 |}.

Definition r_digits : regex := r_plus (RSet [ADigit]).
Definition r_dot : regex := r_lit 46.
Definition r_space : regex := RSet [ASpace].
Definition r_AZ : regex := RSet [ARange 65 90].
Definition r_az : regex := RSet [ARange 97 122].

(** [^chapter\s+\d+] *)
Definition chapter_re : pattern :=
  {| pat_re := RCat (r_str (cp "chapter")) (RCat (r_plus r_space) r_digits);
     pat_eol := false |}.

(** [^\d+\.\s] *)
Definition numbered1_re : pattern :=
  {| pat_re := RCat r_digits (RCat r_dot r_space); pat_eol := false |}.

(** [^\d+\.\d+\s] *)
Definition numbered2_re : pattern :=
  {| pat_re := RCat r_digits (RCat r_dot (RCat r_digits r_space));
     pat_eol := false |}.

(** [^\d+\.\d+\.\d+\s] *)
Definition numbered3_re : pattern :=
  {| pat_re :=
       RCat r_digits
         (RCat r_dot (RCat r_digits (RCat r_dot (RCat r_digits r_space))));
     pat_eol := false |}.

(** [^[A-Z][A-Z\s]{2,}$] *)
Definition all_caps_re : pattern :=
  {| pat_re := RCat r_AZ (r_at_least 2 (RSet [ARange 65 90; ASpace]));
     pat_eol := true |}.

(** [^[A-Z][a-z]+\s[A-Z][a-z]+] *)
Definition title_case_re : pattern :=
  {| pat_re :=
       RCat r_AZ (RCat (r_plus r_az) (RCat r_space (RCat r_AZ (r_plus r_az))));
     pat_eol := false |}.

Definition common_heading_patterns : list pattern :=
  [chapter_re; numbered1_re; numbered2_re; numbered3_re; all_caps_re;
   title_case_re].

(** [\s+] *)
Definition spaces_re : pattern := {| pat_re := r_plus r_space; pat_eol := false |}.

(** [\s+\d+$] *)
Definition trailing_number_re : pattern :=
  {| pat_re := RCat (r_plus r_space) r_digits; pat_eol := true |}.

(** [[•▪▫‣⁃]] *)
Definition bullet_re : pattern := {| pat_re := RSet bullet_chars; pat_eol := false |}.

(** [^\s*[-–—]\s*] *)
Definition leading_dash_re : pattern :=
  {| pat_re := RCat (RStar r_space)
                 (RCat (RSet [AChar 45; AChar 8211; AChar 8212]) (RStar r_space));
     pat_eol := false |}.

(** Truth value of a string or list. *)
Definition nonempty (s : text) : bool :=
  match s with [] => false | _ => true end.

Definition nonempty_list {A} (l : list A) : bool :=
  match l with [] => false | _ => true end.

Section Methods.
Context {U : UnicodeData}.

(** [extract_title_from_metadata]: the title PyPDF2 reports, stripped; absent
    when the file cannot be read or has no (or an empty) title. *)
Definition extract_title_from_metadata (f : PdfFile) : option text :=
  match pdf_metadata_title f with
  | Some t => if nonempty t then Some (strip t) else None
  | None => None
  end.

(** [extract_title_from_first_page].  In the source the body of the method
    is its docstring alone: the [try] statement that follows is indented at
    the level of the class, so it is a statement of the class body, and its
    [return] statements are commented out.  The method returns [None]. *)
Definition extract_title_from_first_page (doc : Document) : option text := None.

Definition title_stoplist : list text :=
  [cp "page"; cp "abstract"; cp "introduction"].

(** The candidates the statements after that docstring collect from a first
    page (lines 105-120): spans whose stripped text has at least 3
    characters, is not in the stoplist, and whose line starts in the upper
    30% of the page. *)
Definition line_title_candidates (p : Page) (l : Line) : list Candidate :=
  flat_map
    (fun sp =>
       let t := strip (span_text sp) in
       if (len t <? 3)%Z || bool_decide (lower t ∈ title_stoplist) then []
       else if Qlt_bool (line_top l) (page_height p * (3 # 10))
            then [(t, span_size sp, line_top l)]
            else [])
    (line_spans l).

Definition first_page_candidates (p : Page) : list Candidate :=
  flat_map
    (fun b =>
       match block_lines b with
       | Some ls => flat_map (line_title_candidates p) ls
       | None => []
       end)
    (page_blocks p).

(** [is_heading_by_pattern] *)
Definition is_heading_by_pattern (t : text) : bool :=
  let text_stripped := strip t in
  existsb (fun p => re_match true p text_stripped) common_heading_patterns.

(** The second half of [classify_heading_level] (lines 155-170): the
    thresholds, then the rule for bold text. *)
Definition level_by_size (th : Thresholds) (size : Q) (bold : bool) (t : text)
  : option Level :=
  if Qge_bool size (th_h1 th) then Some H1
  else if Qge_bool size (th_h2 th) then Some H2
  else if Qge_bool size (th_h3 th) then Some H3
  else if bold && (len (strip t) <? 100)%Z then
    if Qge_bool size 11 then Some H2
    else if Qge_bool size 9 then Some H3
    else None
  else None.

(** [classify_heading_level]; [th] is [self.font_size_threshold]. *)
Definition classify_heading_level (th : Thresholds)
           (size : Q) (bold : bool) (t : text) (page_num : Z) : option Level :=
  if re_match true chapter_re (strip t) then Some H1
  else if re_match false numbered1_re (strip t) then Some H1
  else if re_match false numbered2_re (strip t) then Some H2
  else if re_match false numbered3_re (strip t) then Some H3
  else level_by_size th size bold t.

(** [clean_heading_text] *)
Definition clean_heading_text (t : text) : text :=
  let t := re_sub false spaces_re [32%N] (strip t) in
  let t := re_sub false trailing_number_re [] t in
  let t := re_sub false bullet_re [] t in
  let t := re_sub true leading_dash_re [] t in
  strip t.

(** *** The two passes of [extract_headings_from_pdf] *)

(** Reading every page; a page that fails to decode raises. *)
Fixpoint read_pages (doc : Document) : option (list Page) :=
  match doc with
  | [] => Some []
  | None :: _ => None
  | Some p :: doc' =>
      match read_pages doc' with
      | Some ps => Some (p :: ps)
      | None => None
      end
  end.

Definition nonblank (sp : Span) : bool := nonempty (strip (span_text sp)).

Definition lines_of (p : Page) : list Line :=
  flat_map (fun b => match block_lines b with Some ls => ls | None => [] end)
           (page_blocks p).

(** First pass: the size of every non-blank span. *)
Definition all_font_sizes (pages : list Page) : list Q :=
  flat_map
    (fun p =>
       flat_map (fun l => map span_size (List.filter nonblank (line_spans l)))
                (lines_of p))
    pages.

(** [set(...)]: one representative of every value. *)
Fixpoint distinct (l : list Q) : list Q :=
  match l with
  | [] => []
  | x :: l' =>
      let d := distinct l' in
      if existsb (Qeq_bool x) d then d else x :: d
  end.

(** The comparison of a descending sort. *)
Definition size_desc (a b : Q) : bool := Qlt_bool b a.

(** [sorted(set(all_font_sizes), reverse=True)] *)
Definition sorted_sizes (sizes : list Q) : list Q :=
  sorted_by size_desc (distinct sizes).

(** The update of [self.font_size_threshold] between the passes. *)
Definition update_thresholds (th : Thresholds) (sizes : list Q) : Thresholds :=
  if nonempty_list sizes then
    let ss := sorted_sizes sizes in
    if (4 <=? length ss)%nat then
      {| th_title := th_title th;
         th_h1 := nth 1 ss 0%Q;
         th_h2 := nth 2 ss 0%Q;
         th_h3 := nth 3 ss 0%Q |}
    else th
  else th.

(** State of the loop over the spans of a line. *)
Record LineAcc := {
  acc_text : text;
  acc_sum : Q;
  acc_bold : bool;
  acc_font : text;
  acc_count : Z
}.

Definition empty_acc : LineAcc :=
  {| acc_text := []; acc_sum := 0; acc_bold := false; acc_font := [];
     acc_count := 0 |}.

(** ["bold" in span["font"].lower() or span.get("flags", 0) & (1 << 4)] *)
Definition span_is_bold (sp : Span) : bool :=
  contains (cp "bold") (lower (span_font sp))
  || negb (Z.land (default 0%Z (span_flags sp)) (Z.shiftl 1 4) =? 0)%Z.

Definition merge_span (acc : LineAcc) (sp : Span) : LineAcc :=
  if nonempty (strip (span_text sp)) then
    {| acc_text := acc_text acc ++ span_text sp;
       acc_sum := acc_sum acc + span_size sp;
       acc_bold := if span_is_bold sp then true else acc_bold acc;
       acc_font := span_font sp;
       acc_count := acc_count acc + 1 |}
  else acc.

Definition merge_line (spans : list Span) : LineAcc :=
  fold_left merge_span spans empty_acc.

Definition avg_font_size (acc : LineAcc) : Q :=
  if (0 <? acc_count acc)%Z then acc_sum acc / inject_Z (acc_count acc)
  else acc_sum acc.

(** The body of the loop over lines; [page_num] counts from 0. *)
Definition heading_of_line (th : Thresholds) (page_num : Z) (l : Line)
  : option HeadingInfo :=
  let acc := merge_line (line_spans l) in
  let avg := avg_font_size acc in
  let line_text := clean_heading_text (acc_text acc) in
  if (len line_text <? 2)%Z || (200 <? len line_text)%Z then None
  else
    if is_heading_by_pattern line_text || Qlt_bool 10 avg || acc_bold acc
       || isupper line_text
    then
      match classify_heading_level th avg (acc_bold acc) line_text (page_num + 1) with
      | Some lv =>
          Some {| level := lv; htext := line_text; page := page_num + 1;
                  font_size := avg; font_name := acc_font acc;
                  is_bold := acc_bold acc |}
      | None => None
      end
    else None.

(** Second pass. *)
Fixpoint collect_headings (th : Thresholds) (page_num : Z) (pages : list Page)
  : list HeadingInfo :=
  match pages with
  | [] => []
  | p :: pages' =>
      omap (heading_of_line th page_num) (lines_of p)
      ++ collect_headings th (page_num + 1) pages'
  end.

(** The loop of [post_process_headings]. *)
Fixpoint unique_headings (seen : gset (text * Z)) (headings : list HeadingInfo)
  : list HeadingInfo :=
  match headings with
  | [] => []
  | h :: rest =>
      let key := (htext h, page h) in
      if decide (key ∈ seen) then unique_headings seen rest
      else h :: unique_headings ({[key]} ∪ seen) rest
  end.

(** [post_process_headings] *)
Definition post_process_headings (headings : list HeadingInfo)
  : list HeadingInfo :=
  match headings with
  | [] => headings
  | _ => sorted_by heading_lt (unique_headings ∅ headings)
  end.

(** [extract_headings_from_pdf]: the extractor's thresholds before the call,
    the file; the thresholds after the call and the returned pair.  Any
    exception inside the [try] gives [(None, [])]. *)
Definition extract_headings_from_pdf (th : Thresholds) (f : PdfFile)
  : Thresholds * (option text * list HeadingInfo) :=
  let title := extract_title_from_metadata f in
  match pdf_document f with
  | None => (th, (None, []))
  | Some doc =>
      let title :=
        match title with
        | Some t => if nonempty t then title else extract_title_from_first_page doc
        | None => extract_title_from_first_page doc
        end in
      match read_pages doc with
      | None => (th, (None, []))
      | Some pages =>
          let th' := update_thresholds th (all_font_sizes pages) in
          let headings := collect_headings th' 0 pages in
          (th', (title, post_process_headings headings))
      end
  end.

(** [format_output] *)
Definition format_output (title : option text) (headings : list HeadingInfo)
  : Output :=
  {| out_title :=
       match title with
       | Some t => if nonempty t then t else cp "Document"
       | None => cp "Document"
       end;
     out_outline :=
       map (fun h => {| oe_level := level h; oe_text := htext h; oe_page := page h |})
           headings |}.

(** [process_pdf]: [write_ok] tells whether writing the JSON file succeeds;
    the result is the extractor's thresholds afterwards, the returned flag and
    what was written. *)
Definition process_pdf (th : Thresholds) (f : PdfFile) (write_ok : bool)
  : Thresholds * (bool * option Output) :=
  let '(th', (title, headings)) := extract_headings_from_pdf th f in
  let output_data := format_output title headings in
  if write_ok then (th', (true, Some output_data)) else (th', (false, None)).

End Methods.

End PDFOutlineExtractor.

Import EnhancedPDFOutlineExtractor.
Import PDFOutlineExtractor.

(** ** The module-level functions *)


Section Driver.
Context {U : UnicodeData}.


(** The loop of [main]: one extractor object processes every file in turn.
    The result lists, per file, the thresholds its classification pass used
    (those the extractor holds when the call returns) and what was written. *)
Fixpoint process_all (th : Thresholds) (files : list PdfFile)
  : list (Thresholds * (bool * option Output)) :=
  match files with
  | [] => []
  | f :: files' =>
      let r := process_pdf th f true in
      r :: process_all (fst r) files'
  end.

(** [process_single_pdf]: a fresh extractor for the one file. *)
Definition process_single_pdf (f : PdfFile) : SingleResult :=
  let '(_, (title, headings)) := extract_headings_from_pdf init_thresholds f in
  {| res_filename := basename (pdf_path f);
     res_sections :=
       map (fun h => {| sec_heading := htext h; sec_page := page h;
                        sec_score := 9 # 10 |})
           (firstn 5 headings) |}.

End Driver.

(** ** The noise rule in the words of the specification *)

Definition leader_set : list N := [46; 45; 8226; 9642; 9643; 8227; 8259]%N.

Section NoiseSpec.
Context {U : UnicodeData}.

(** (a) five or more characters, all leader or bullet characters *)
Definition is_leader_line (t : text) : bool :=
  (5 <=? length t)%nat && forallb (fun c => existsb (N.eqb c) leader_set) t.

(** (b) one or two digits, optionally followed by a period *)
Definition is_page_number (t : text) : bool :=
  match t with
  | [d] => uni_decimal d
  | [d; e] => uni_decimal d && (uni_decimal e || (e =? 46)%N)
  | [d; e; p] => uni_decimal d && uni_decimal e && (p =? 46)%N
  | _ => false
  end.

(** (c) at most three characters and not alphabetic *)
Definition is_short_fragment (t : text) : bool :=
  (length t <=? 3)%nat && negb (isalpha t).

Definition is_noise_spec (t : text) : bool :=
  let t := strip t in
  is_leader_line t || is_page_number t || is_short_fragment t.

End NoiseSpec.

(** The key of the deduplication in [post_process_headings]. *)
Definition hkey (h : HeadingInfo) : text * Z := (htext h, page h).

(** ** Sample inputs *)

Definition sample_span (t : string) (size : Q) : Span :=
  {| span_text := cp t; span_size := size; span_font := cp "Arial";
     span_flags := Some 0%Z |}.

Definition sample_line (top : Q) (spans : list Span) : Line :=
  {| line_spans := spans; line_top := top |}.

Definition sample_page (lines : list Line) : Page :=
  {| page_blocks := [{| block_lines := Some lines |}]; page_height := 800 |}.

Definition sample_file (name : string) (doc : option Document) : PdfFile :=
  {| pdf_path := cp name; pdf_metadata_title := None; pdf_document := doc |}.

(** A heading candidate whose text is a bare page number. *)
Definition page_number_heading : HeadingInfo :=
  {| level := H1; htext := cp "12"; page := 1; font_size := 14;
     font_name := cp "Arial"; is_bold := false |}.

(** A one-page document whose only line is the page number, in 14 pt. *)
Definition page_number_file : PdfFile :=
  sample_file "n.pdf"
    (Some [Some (sample_page [sample_line 780 [sample_span "12" 14]])]).

(** The document of the end-to-end example of the specification: a title on
    the first page, a numbered heading on the second. *)
Definition report_first_page : Page :=
  sample_page [sample_line 80 [sample_span "Report Title" 20]].

Definition report_file : PdfFile :=
  sample_file "r.pdf"
    (Some [Some report_first_page;
           Some (sample_page [sample_line 100 [sample_span "2.1 Background" 9]])]).

(** A document with four font sizes, and one with a single size. *)
Definition four_sizes_page : Page :=
  sample_page
    [sample_line 100 [sample_span "Big" 20];
     sample_line 200 [sample_span "Large" 18];
     sample_line 300 [sample_span "Medium" 16];
     sample_line 400 [sample_span "body text" 14]].

Definition four_sizes_file : PdfFile :=
  sample_file "a.pdf" (Some [Some four_sizes_page]).

Definition one_size_page : Page :=
  sample_page [sample_line 100 [sample_span "plain text" 12]].

Definition one_size_file : PdfFile :=
  sample_file "b.pdf" (Some [Some one_size_page]).

(** A file that cannot be opened, a document whose second page cannot be
    decoded, and a document without pages. *)
Definition unreadable_file : PdfFile := sample_file "x.pdf" None.

Definition damaged_file : PdfFile :=
  sample_file "x.pdf"
    (Some [Some (sample_page [sample_line 100 [sample_span "1. Intro" 14]]); None]).

Definition empty_file : PdfFile := sample_file "x.pdf" (Some []).

(** ** Notions used to state further properties *)

(** The order of an outline: page ascending, font size descending within a
    page. *)
Definition outline_order (a b : HeadingInfo) : Prop :=
  (page a < page b)%Z \/ (page a = page b /\ (font_size b <= font_size a)%Q).

(** The first heading of a list with a given (text, page) key. *)
Definition first_with_key (k : text * Z) (l : list HeadingInfo)
  : option HeadingInfo :=
  List.find (fun h => bool_decide (hkey h = k)) l.

(** The key of the deduplication of [EnhancedPDFOutlineExtractor]. *)
Definition stripped_key (h : HeadingInfo) : text * Z := (strip (htext h), page h).

(** The bullet glyphs [clean_heading_text] removes. *)
Definition bullet_points : list N := [8226; 9642; 9643; 8227; 8259]%N.

(** A readable document without pages whose metadata carries a title, and a
    one-page document whose only span is blank. *)
Definition titled_file : PdfFile :=
  {| pdf_path := cp "t.pdf";
     pdf_metadata_title := Some (cp "  Annual Report ");
     pdf_document := Some [] |}.

Definition blank_page : Page := sample_page [sample_line 100 [sample_span "   " 30]].

Definition blank_file : PdfFile := sample_file "e.pdf" (Some [Some blank_page]).

(** The thresholds decrease from h1 to h3. *)
Definition thresholds_ordered (th : Thresholds) : Prop :=
  (th_h3 th <= th_h2 th)%Q /\ (th_h2 th <= th_h1 th)%Q.

(** * Properties *)

(** ** The matcher decides the language of a pattern *)

Section RegexFacts.
Context {U : UnicodeData}.
Variable ic : bool.

Lemma matches_set_inv cs s :
  matches ic (RSet cs) s -> exists c, s = [c] /\ set_test ic cs c = true.
Proof. inversion 1; subst; eauto. Qed.

Lemma matches_cat_inv r1 r2 s :
  matches ic (RCat r1 r2) s ->
  exists s1 s2, s = s1 ++ s2 /\ matches ic r1 s1 /\ matches ic r2 s2.
Proof. inversion 1; subst; eauto. Qed.

Lemma matches_alt_inv r1 r2 s :
  matches ic (RAlt r1 r2) s -> matches ic r1 s \/ matches ic r2 s.
Proof. inversion 1; subst; auto. Qed.

Lemma matches_star_inv r s :
  matches ic (RStar r) s ->
  s = [] \/
  exists c s1 s2, s = c :: s1 ++ s2 /\ matches ic r (c :: s1)
                  /\ matches ic (RStar r) s2.
Proof. inversion 1; subst; [left | right]; eauto 6. Qed.

Lemma matches_eps_inv s : matches ic REps s -> s = [].
Proof. inversion 1; reflexivity. Qed.

Lemma matches_none_inv s : ~ matches ic RNone s.
Proof. inversion 1. Qed.

Lemma nullable_matches r : nullable r = true <-> matches ic r [].
Proof.
  induction r as [| | cs | r1 IH1 r2 IH2 | r1 IH1 r2 IH2 | r IH]; simpl.
  - split; [discriminate | intros H; destruct (matches_none_inv _ H)].
  - split; [constructor | reflexivity].
  - split; [discriminate |].
    intros H. apply matches_set_inv in H as (c & Hc & _). discriminate.
  - rewrite andb_true_iff, IH1, IH2. split.
    + intros [Ha Hb]. exact (M_cat ic r1 r2 [] [] Ha Hb).
    + intros H. apply matches_cat_inv in H as (s1 & s2 & Hs & Ha & Hb).
      symmetry in Hs. apply app_eq_nil in Hs as [-> ->]. auto.
  - rewrite orb_true_iff, IH1, IH2. split.
    + intros [H | H]; [apply M_alt_l | apply M_alt_r]; exact H.
    + apply matches_alt_inv.
  - split; [constructor | reflexivity].
Qed.

Lemma deriv_matches r : forall c s,
  matches ic (deriv ic c r) s <-> matches ic r (c :: s).
Proof.
  induction r as [| | cs | r1 IH1 r2 IH2 | r1 IH1 r2 IH2 | r IH];
    intros c s; simpl.
  - split; intros H; destruct (matches_none_inv _ H).
  - split; intros H; [destruct (matches_none_inv _ H) |].
    apply matches_eps_inv in H. discriminate.
  - destruct (set_test ic cs c) eqn:E; split; intros H.
    + apply matches_eps_inv in H as ->. constructor. exact E.
    + apply matches_set_inv in H as (c' & Hc & _).
      injection Hc as _ ->. constructor.
    + destruct (matches_none_inv _ H).
    + apply matches_set_inv in H as (c' & Hc & Ht).
      injection Hc as <- _. congruence.
  - assert (Hcat : matches ic (RCat (deriv ic c r1) r2) s <->
                   exists s1 s2, s = s1 ++ s2 /\ matches ic r1 (c :: s1)
                                 /\ matches ic r2 s2).
    { split.
      - intros H. apply matches_cat_inv in H as (s1 & s2 & -> & Ha & Hb).
        exists s1, s2. rewrite <- IH1. auto.
      - intros (s1 & s2 & -> & Ha & Hb). constructor; [apply IH1 |]; auto. }
    assert (Hsplit : matches ic (RCat r1 r2) (c :: s) <->
              (exists s1 s2, s = s1 ++ s2 /\ matches ic r1 (c :: s1)
                             /\ matches ic r2 s2)
              \/ (matches ic r1 [] /\ matches ic r2 (c :: s))).
    { split.
      - intros H. apply matches_cat_inv in H as (s1 & s2 & Hs & Ha & Hb).
        destruct s1 as [| c1 s1]; simpl in Hs.
        + subst s2. right. auto.
        + injection Hs as <- ->. left. eauto.
      - intros [(s1 & s2 & -> & Ha & Hb) | [Ha Hb]].
        + exact (M_cat ic r1 r2 (c :: s1) s2 Ha Hb).
        + exact (M_cat ic r1 r2 [] (c :: s) Ha Hb). }
    rewrite Hsplit, <- Hcat, <- IH2, <- nullable_matches.
    destruct (nullable r1); split.
    + intros H. apply matches_alt_inv in H. tauto.
    + intros [H | [_ H]]; [apply M_alt_l | apply M_alt_r]; exact H.
    + tauto.
    + intros [H | [H _]]; [exact H | discriminate].
  - split.
    + intros H. apply matches_alt_inv in H as [H | H];
        [apply M_alt_l, IH1 | apply M_alt_r, IH2]; exact H.
    + intros H. apply matches_alt_inv in H as [H | H];
        [apply M_alt_l, IH1 | apply M_alt_r, IH2]; exact H.
  - split.
    + intros H. apply matches_cat_inv in H as (s1 & s2 & -> & Ha & Hb).
      apply IH in Ha. constructor; assumption.
    + intros H. apply matches_star_inv in H as [H | (c' & s1 & s2 & Hs & Ha & Hb)];
        [discriminate |].
      injection Hs as <- ->. constructor; [apply IH |]; assumption.
Qed.

Lemma full_match_iff s : forall r, full_match ic r s = true <-> matches ic r s.
Proof.
  induction s as [| c s IH]; intros r; simpl.
  - apply nullable_matches.
  - rewrite IH. apply deriv_matches.
Qed.

Lemma prefix_match_iff s : forall r,
  prefix_match ic r s = true <->
  exists s1 s2, s = s1 ++ s2 /\ matches ic r s1.
Proof.
  induction s as [| c s IH]; intros r; simpl; rewrite orb_true_iff.
  - rewrite nullable_matches. split.
    + intros [H | H]; [| discriminate]. exists [], []. auto.
    + intros (s1 & s2 & Hs & H). symmetry in Hs.
      apply app_eq_nil in Hs as [-> _]. auto.
  - rewrite nullable_matches, IH. split.
    + intros [H | (s1 & s2 & -> & H)].
      * exists [], (c :: s). auto.
      * exists (c :: s1), s2. split; [reflexivity | apply deriv_matches, H].
    + intros (s1 & s2 & Hs & H). destruct s1 as [| c1 s1]; simpl in Hs.
      * left. exact H.
      * injection Hs as <- ->. right. exists s1, s2.
        split; [reflexivity | apply deriv_matches, H].
Qed.

End RegexFacts.

(** ** [strip] *)

Lemma drop_while_head {A} (p : A -> bool) l x l' :
  drop_while p l = x :: l' -> p x = false.
Proof.
  induction l as [| y l IH]; simpl; [discriminate |].
  destruct (p y) eqn:E; [exact IH |].
  intros H. injection H as <- _. exact E.
Qed.

(** A stripped string does not end with white space. *)
Lemma strip_last t c s' : rev (strip t) = c :: s' -> is_space c = false.
Proof.
  unfold strip, rstrip. rewrite rev_involutive. apply drop_while_head.
Qed.

Section NoiseFacts.
Context {U : UnicodeData}.

(** On a stripped subject a final [$] holds at the end only. *)
Lemma eol_match_strip ic r t :
  eol_match ic r (strip t) = full_match ic r (strip t).
Proof.
  unfold eol_match. destruct (rev (strip t)) as [| c s'] eqn:E.
  - apply orb_false_r.
  - apply strip_last in E. destruct (N.eqb_spec c 10) as [-> | _].
    + discriminate E.
    + apply orb_false_r.
Qed.

Lemma matches_star_set ic cs t :
  matches ic (RStar (RSet cs)) t <-> Forall (fun c => set_test ic cs c = true) t.
Proof.
  induction t as [| c t IH].
  - split; constructor.
  - split.
    + intros H.
      apply matches_star_inv in H as [H | (c' & s1 & s2 & Hs & Ha & Hb)];
        [discriminate |].
      apply matches_set_inv in Ha as (c0 & Hc & Ht).
      injection Hc as -> ->. simpl in Hs. injection Hs as -> ->.
      constructor; [exact Ht | apply IH, Hb].
    + intros H. apply Forall_cons_iff in H. destruct H as [Hc Ht].
      apply (M_star_cons ic (RSet cs) c [] t).
      * constructor. exact Hc.
      * apply IH, Ht.
Qed.

Lemma matches_at_least_set ic cs n : forall t,
  matches ic (r_at_least n (RSet cs)) t <->
  (n <= length t)%nat /\ Forall (fun c => set_test ic cs c = true) t.
Proof.
  induction n as [| n IH]; intros t; simpl.
  - rewrite matches_star_set. split; [intros H; split; [lia | exact H] | tauto].
  - split.
    + intros H. apply matches_cat_inv in H as (s1 & s2 & -> & Ha & Hb).
      apply matches_set_inv in Ha as (c & -> & Hc).
      apply IH in Hb as [Hn Hall]. simpl. split; [lia |].
      constructor; assumption.
    + intros [Hn Hall]. destruct t as [| c t]; simpl in Hn; [lia |].
      apply Forall_cons_iff in Hall. destruct Hall as [Hc Ht].
      apply (M_cat ic _ _ [c] t).
      * constructor. exact Hc.
      * apply IH. split; [lia | exact Ht].
Qed.

Lemma leader_re_spec t :
  full_match false (pat_re leader_re) t = is_leader_line t.
Proof.
  apply eq_true_iff_eq. rewrite full_match_iff.
  unfold leader_re, pat_re. rewrite matches_at_least_set.
  unfold is_leader_line. rewrite andb_true_iff, Nat.leb_le, forallb_forall.
  rewrite List.Forall_forall. split; intros [Hn H]; (split; [exact Hn |]);
    intros c Hc; specialize (H c Hc); simpl in *; rewrite <- H;
    repeat (f_equal; try apply orb_false_r); reflexivity.
Qed.

End NoiseFacts.

(** Evaluate [strip] on a literal. *)
Ltac eval_strip :=
  repeat match goal with
  | |- context [strip (cp ?t)] =>
      let v := eval vm_compute in (strip (cp t)) in
      change (strip (cp t)) with v
  end.

Section NoiseFacts2.
Context {U : UnicodeData}.

Lemma page_number_intro d s2 s3 :
  uni_decimal d = true ->
  (s2 = [] \/ exists e, s2 = [e] /\ uni_decimal e = true) ->
  (s3 = [] \/ s3 = [46%N]) ->
  matches false (pat_re page_number_re) (d :: s2 ++ s3).
Proof.
  intros Hd H2 H3. unfold page_number_re, pat_re.
  change (d :: s2 ++ s3) with (([d] ++ s2) ++ s3).
  apply M_cat; [apply M_cat |].
  - constructor. simpl. rewrite Hd. reflexivity.
  - destruct H2 as [-> | (e & -> & He)]; simpl.
    + apply M_alt_r. constructor.
    + apply M_alt_l. apply (M_cat false _ _ [e] []); [| constructor].
      constructor. simpl. rewrite He. reflexivity.
  - destruct H3 as [-> | ->].
    + apply M_alt_r. constructor.
    + apply M_alt_l. constructor. reflexivity.
Qed.

Lemma page_number_elim t :
  matches false (pat_re page_number_re) t ->
  exists d s2 s3,
    t = d :: s2 ++ s3 /\ uni_decimal d = true /\
    (s2 = [] \/ exists e, s2 = [e] /\ uni_decimal e = true) /\
    (s3 = [] \/ s3 = [46%N]).
Proof.
  unfold page_number_re, pat_re. intros H.
  apply matches_cat_inv in H as (s12 & s3 & -> & H12 & H3).
  apply matches_cat_inv in H12 as (s1 & s2 & -> & H1 & H2).
  apply matches_set_inv in H1 as (d & -> & Hd).
  simpl in Hd. rewrite orb_false_r in Hd.
  exists d, s2, s3. split; [reflexivity |]. split; [exact Hd |]. split.
  - simpl in H2. apply matches_alt_inv in H2 as [H2 | H2].
    + apply matches_cat_inv in H2 as (a & b & -> & Ha & Hb).
      apply matches_set_inv in Ha as (e & -> & He).
      apply matches_eps_inv in Hb as ->.
      simpl in He. rewrite orb_false_r in He. right. eauto.
    + apply matches_eps_inv in H2. auto.
  - apply matches_alt_inv in H3 as [H3 | H3].
    + apply matches_set_inv in H3 as (p & -> & Hp).
      simpl in Hp. rewrite orb_false_r in Hp.
      apply N.eqb_eq in Hp as ->. auto.
    + apply matches_eps_inv in H3. auto.
Qed.

Lemma page_number_re_spec t :
  full_match false (pat_re page_number_re) t = is_page_number t.
Proof.
  apply eq_true_iff_eq. rewrite full_match_iff. split.
  - intros H. apply page_number_elim in H
      as (d & s2 & s3 & -> & Hd & [-> | (e & -> & He)] & [-> | ->]);
      simpl; rewrite ?Hd, ?He, ?orb_true_r; reflexivity.
  - destruct t as [| d [| e [| p [| q t]]]]; simpl; try discriminate.
    + intros Hd. apply (page_number_intro d [] []); auto.
    + intros H. apply andb_true_iff in H as [Hd H].
      apply orb_true_iff in H as [He | He].
      * apply (page_number_intro d [e] []); eauto.
      * apply N.eqb_eq in He as ->.
        apply (page_number_intro d [] [46%N]); auto.
    + intros H. apply andb_true_iff in H as [H Hp].
      apply andb_true_iff in H as [Hd He]. apply N.eqb_eq in Hp as ->.
      apply (page_number_intro d [e] [46%N]); eauto.
Qed.

Lemma is_noise_unfold t :
  is_noise t =
  full_match false (pat_re leader_re) (strip t)
  || full_match false (pat_re page_number_re) (strip t)
  || ((len (strip t) <=? 3)%Z && negb (isalpha (strip t))).
Proof.
  unfold is_noise, re_match. simpl pat_eol. cbv iota.
  rewrite !eol_match_strip.
  destruct (full_match false (pat_re leader_re) (strip t)); [reflexivity |].
  destruct (full_match false (pat_re page_number_re) (strip t)); [reflexivity |].
  destruct ((len (strip t) <=? 3)%Z && negb (isalpha (strip t))); reflexivity.
Qed.

Lemma is_noise_refines t : is_noise t = is_noise_spec t.
Proof.
  rewrite is_noise_unfold, leader_re_spec, page_number_re_spec.
  unfold is_noise_spec, is_short_fragment, len. do 2 f_equal.
  destruct (Nat.leb_spec (length (strip t)) 3);
    [apply Z.leb_le | apply Z.leb_gt]; lia.
Qed.

Lemma is_noise_twelve : is_noise (cp "12") = true.
Proof.
  rewrite is_noise_refines. unfold is_noise_spec. cbv zeta. eval_strip.
  assert (H : is_page_number [49; 50]%N = true).
  { unfold is_page_number. rewrite !uni_decimal_ascii by reflexivity.
    reflexivity. }
  rewrite H, orb_true_r. reflexivity.
Qed.

(** C7: [is_noise] holds exactly for (a) lines of five or more leader or
    bullet characters, (b) one or two digits with an optional period, and
    (c) fragments of at most three characters that are not alphabetic, the
    text being stripped first; so ["......"] and ["12"] are noise and
    ["Introduction"] is not. *)
Theorem is_noise_exactly :
  (forall t, is_noise t = is_noise_spec t) /\
  is_noise (cp "......") = true /\
  is_noise (cp "12") = true /\
  is_noise (cp "Introduction") = false.
Proof.
  split; [exact is_noise_refines |].
  split; [rewrite is_noise_refines; reflexivity |].
  split; [exact is_noise_twelve |].
  rewrite is_noise_refines. reflexivity.
Qed.

End NoiseFacts2.

(** ** ASCII subjects and ASCII patterns need the ASCII tables only *)

Lemma existsb_ext_in {A} (f g : A -> bool) l :
  (forall x, In x l -> f x = g x) -> existsb f l = existsb g l.
Proof.
  induction l as [| x l IH]; intros H; simpl; [reflexivity |].
  rewrite (H x) by (left; reflexivity).
  rewrite IH by (intros y Hy; apply H; right; exact Hy). reflexivity.
Qed.

Section AsciiIndependence.
Context {U : UnicodeData}.
Variable ic : bool.

Lemma members_bound lo hi x : In x (members lo hi) -> (x <= hi)%N.
Proof.
  unfold members. rewrite in_map_iff. intros (n & <- & Hn).
  apply in_seq in Hn. lia.
Qed.

Lemma folded_ascii xs c :
  (c < 128)%N -> (forall x, In x xs -> (x < 128)%N) ->
  @folded U xs c = @folded ascii_only xs c.
Proof.
  intros Hc Hxs. unfold folded. apply existsb_ext_in. intros x Hx.
  apply Hxs in Hx.
  rewrite (@uni_tolower_ascii U c Hc), (@uni_tolower_ascii U x Hx).
  rewrite (@uni_tolower_ascii ascii_only c Hc).
  rewrite (@uni_tolower_ascii ascii_only x Hx). reflexivity.
Qed.

Lemma atom_test_ascii a c :
  (c < 128)%N -> atom_ascii a = true ->
  @atom_test U ic a c = @atom_test ascii_only ic a c.
Proof.
  intros Hc Ha. destruct a as [| | x | lo hi]; simpl in Ha;
    unfold atom_test.
  - rewrite (@uni_decimal_ascii U c Hc), (@uni_decimal_ascii ascii_only c Hc).
    reflexivity.
  - reflexivity.
  - apply N.ltb_lt in Ha. destruct ic; [| reflexivity].
    apply folded_ascii; [exact Hc |]. intros y [<- | []]. exact Ha.
  - apply N.ltb_lt in Ha. destruct ic; [| reflexivity].
    apply folded_ascii; [exact Hc |]. intros y Hy.
    apply members_bound in Hy. lia.
Qed.

Lemma set_test_ascii cs c :
  (c < 128)%N -> forallb atom_ascii cs = true ->
  @set_test U ic cs c = @set_test ascii_only ic cs c.
Proof.
  intros Hc. unfold set_test. induction cs as [| a cs IH]; simpl.
  - reflexivity.
  - intros H. apply andb_true_iff in H as [Ha Hcs].
    rewrite IH, atom_test_ascii by assumption. reflexivity.
Qed.

Lemma deriv_ascii c r :
  (c < 128)%N -> regex_ascii r = true ->
  @deriv U ic c r = @deriv ascii_only ic c r /\
  regex_ascii (@deriv ascii_only ic c r) = true.
Proof.
  intros Hc. induction r as [| | cs | r1 IH1 r2 IH2 | r1 IH1 r2 IH2 | r IH];
    simpl; intros Hr.
  - auto.
  - auto.
  - rewrite set_test_ascii by assumption.
    destruct (set_test ic cs c); auto.
  - apply andb_true_iff in Hr as [H1 H2].
    destruct (IH1 H1) as [-> E1], (IH2 H2) as [-> E2].
    destruct (nullable r1); simpl; rewrite ?E1, ?E2, ?H2; auto.
  - apply andb_true_iff in Hr as [H1 H2].
    destruct (IH1 H1) as [-> E1], (IH2 H2) as [-> E2].
    simpl. rewrite E1, E2. auto.
  - destruct (IH Hr) as [-> E]. simpl. rewrite E, Hr. auto.
Qed.

Lemma full_match_ascii s : forall r,
  is_ascii s = true -> regex_ascii r = true ->
  @full_match U ic r s = @full_match ascii_only ic r s.
Proof.
  induction s as [| c s IH]; intros r Hs Hr; simpl; [reflexivity |].
  simpl in Hs. apply andb_true_iff in Hs as [Hc Hs]. apply N.ltb_lt in Hc.
  destruct (deriv_ascii c r Hc Hr) as [-> E]. apply IH; assumption.
Qed.

Lemma prefix_match_ascii s : forall r,
  is_ascii s = true -> regex_ascii r = true ->
  @prefix_match U ic r s = @prefix_match ascii_only ic r s.
Proof.
  induction s as [| c s IH]; intros r Hs Hr; simpl; [reflexivity |].
  simpl in Hs. apply andb_true_iff in Hs as [Hc Hs]. apply N.ltb_lt in Hc.
  destruct (deriv_ascii c r Hc Hr) as [-> E]. rewrite IH; auto.
Qed.

Lemma is_ascii_rev_tail s c s' :
  is_ascii s = true -> rev s = c :: s' -> is_ascii (rev s') = true.
Proof.
  intros Hs E. unfold is_ascii in *. rewrite forallb_forall in *.
  intros x Hx. apply Hs. apply in_rev. rewrite E. right.
  apply in_rev. exact Hx.
Qed.

Lemma re_match_ascii p s :
  is_ascii s = true -> regex_ascii (pat_re p) = true ->
  @re_match U ic p s = @re_match ascii_only ic p s.
Proof.
  intros Hs Hp. unfold re_match, eol_match.
  destruct (pat_eol p).
  - rewrite full_match_ascii by assumption.
    destruct (rev s) as [| c s'] eqn:E; [reflexivity |].
    rewrite (full_match_ascii (rev s')); eauto using is_ascii_rev_tail.
  - apply prefix_match_ascii; assumption.
Qed.

End AsciiIndependence.

(** ** Classification *)

Section Classification.
Context {U : UnicodeData}.

(** Without a numbering or chapter pattern the level comes from the size
    and boldness alone. *)
Lemma classify_without_pattern th size bold t p :
  re_match true chapter_re (strip t) = false ->
  re_match false numbered1_re (strip t) = false ->
  re_match false numbered2_re (strip t) = false ->
  re_match false numbered3_re (strip t) = false ->
  classify_heading_level th size bold t p = level_by_size th size bold t.
Proof.
  intros H0 H1 H2 H3. unfold classify_heading_level.
  rewrite H0, H1, H2, H3. reflexivity.
Qed.

(** C5: for ["1.1 Overview"], size 8.0, not bold, the classifier returns H2:
    the two-level numbering pattern matches, the one-level pattern does not,
    and the pattern decides before the thresholds and the rule for bold text
    are consulted, which by themselves give no level. *)
Theorem classify_two_level_numbering :
  let t := cp "1.1 Overview" in
  re_match false numbered2_re (strip t) = true /\
  re_match false numbered1_re (strip t) = false /\
  (forall th p, classify_heading_level th 8 false t p = Some H2) /\
  level_by_size init_thresholds 8 false t = None.
Proof.
  cbv zeta. unfold classify_heading_level.
  repeat match goal with
  | |- context [@re_match U ?ic ?p ?s] =>
      rewrite (re_match_ascii ic p s eq_refl eq_refl)
  end.
  split; [vm_compute; reflexivity |].
  split; [vm_compute; reflexivity |].
  split; [intros th p; vm_compute; reflexivity | reflexivity].
Qed.

End Classification.

(** ** Stable sorting *)

Section SortingFacts.
Context {A : Type}.
Variable lt : A -> A -> bool.
Hypothesis lt_asym : forall a b, lt a b = true -> lt b a = false.
Hypothesis lt_negtrans :
  forall a b c, lt a b = false -> lt b c = false -> lt a c = false.

Lemma insert_sorted_perm x l : insert_sorted lt x l ≡ₚ x :: l.
Proof.
  induction l as [| y l IH]; simpl; [reflexivity |].
  destruct (lt y x); [| reflexivity].
  rewrite IH. apply Permutation_swap.
Qed.

Lemma sorted_by_perm l : sorted_by lt l ≡ₚ l.
Proof.
  induction l as [| x l IH]; simpl; [reflexivity |].
  rewrite insert_sorted_perm, IH. reflexivity.
Qed.

Lemma insert_sorted_sorted x l :
  StronglySorted (not_after lt) l -> StronglySorted (not_after lt) (insert_sorted lt x l).
Proof.
  induction l as [| y l IH]; simpl; intros Hs.
  - repeat constructor.
  - apply StronglySorted_inv in Hs as [Hl Hy].
    destruct (lt y x) eqn:E.
    + constructor; [apply IH, Hl |].
      rewrite insert_sorted_perm. constructor; [apply lt_asym, E | exact Hy].
    + constructor; [constructor; assumption |].
      constructor; [exact E |].
      eapply Forall_impl; [exact Hy |]. intros z Hz.
      unfold not_after in *. eapply lt_negtrans; eassumption.
Qed.

Lemma sorted_by_sorted l : StronglySorted (not_after lt) (sorted_by lt l).
Proof.
  induction l as [| x l IH]; simpl.
  - constructor.
  - apply insert_sorted_sorted, IH.
Qed.

(** Sorting a sorted list changes nothing. *)
Lemma sorted_by_fixed l : StronglySorted (not_after lt) l -> sorted_by lt l = l.
Proof.
  induction l as [| x l IH]; simpl; intros Hs; [reflexivity |].
  apply StronglySorted_inv in Hs as [Hl Hx]. rewrite IH by exact Hl.
  destruct l as [| y l]; simpl; [reflexivity |].
  apply Forall_cons in Hx as [Hy _]. unfold not_after in Hy.
  rewrite Hy. reflexivity.
Qed.

Lemma sorted_by_idempotent l : sorted_by lt (sorted_by lt l) = sorted_by lt l.
Proof. apply sorted_by_fixed, sorted_by_sorted. Qed.

End SortingFacts.

(** ** Comparisons of keys *)

Lemma Qlt_bool_iff a b : Qlt_bool a b = true <-> (a < b)%Q.
Proof.
  unfold Qlt_bool. rewrite negb_true_iff, <- not_true_iff_false, Qle_bool_iff.
  split; [apply Qnot_le_lt | apply Qlt_not_le].
Qed.

Lemma Qlt_bool_false a b : Qlt_bool a b = false <-> (b <= a)%Q.
Proof.
  unfold Qlt_bool. rewrite negb_false_iff. apply Qle_bool_iff.
Qed.

Lemma pairZQ_lt_iff a b :
  pairZQ_lt a b = true <->
  (fst a < fst b)%Z \/ (fst a = fst b /\ (snd a < snd b)%Q).
Proof.
  unfold pairZQ_lt. destruct (Z.eqb_spec (fst a) (fst b)) as [E | E]; simpl.
  - rewrite Qlt_bool_iff. split; [auto | intros [H | [_ H]]; [lia | exact H]].
  - rewrite Z.ltb_lt. split; [auto | intros [H | [H _]]; [exact H | tauto]].
Qed.

Lemma pairZQ_lt_false a b :
  pairZQ_lt a b = false <->
  (fst b < fst a)%Z \/ (fst a = fst b /\ (snd b <= snd a)%Q).
Proof.
  rewrite <- not_true_iff_false, pairZQ_lt_iff. split.
  - intros H. destruct (Z.lt_total (fst a) (fst b)) as [L | [E | G]].
    + tauto.
    + right. split; [exact E |]. apply Qnot_lt_le. tauto.
    + auto.
  - intros [H | [E H]] [L | [E' L]]; try lia.
    apply Qle_not_lt in H. tauto.
Qed.

Lemma heading_lt_asym a b : heading_lt a b = true -> heading_lt b a = false.
Proof.
  unfold heading_lt. rewrite pairZQ_lt_iff, pairZQ_lt_false.
  intros [H | [E H]]; [auto |]. right. split; [symmetry; exact E | apply Qlt_le_weak, H].
Qed.

Lemma heading_lt_negtrans a b c :
  heading_lt a b = false -> heading_lt b c = false -> heading_lt a c = false.
Proof.
  unfold heading_lt. rewrite !pairZQ_lt_false.
  intros [H1 | [E1 H1]] [H2 | [E2 H2]]; try (left; lia).
  right. split; [lia | eapply Qle_trans; eassumption].
Qed.

(** ** Deduplication and assembly *)

Lemma unique_headings_fixed l : forall seen,
  NoDup (hkey <$> l) -> (forall h, h ∈ l -> hkey h ∉ seen) ->
  unique_headings seen l = l.
Proof.
  induction l as [| a l IH]; intros seen Hnd Hseen; simpl; [reflexivity |].
  rewrite fmap_cons in Hnd. apply NoDup_cons in Hnd as [Ha Hnd].
  destruct (decide ((htext a, page a) ∈ seen)) as [Hin | _].
  - exfalso. apply (Hseen a); [left | exact Hin].
  - f_equal. apply IH; [exact Hnd |]. intros h Hh.
    rewrite elem_of_union, elem_of_singleton. intros [E | Hin].
    + apply Ha. change (hkey a) with (htext a, page a). rewrite <- E.
      apply list_elem_of_fmap_2. exact Hh.
    + apply (Hseen h); [right; exact Hh | exact Hin].
Qed.

Lemma unique_headings_keys l : forall seen,
  NoDup (hkey <$> unique_headings seen l) /\
  (forall h, h ∈ unique_headings seen l -> (hkey h ∉ seen) /\ (h ∈ l)).
Proof.
  induction l as [| a l IH]; intros seen; simpl.
  - split; [constructor | intros h Hh; inversion Hh].
  - destruct (decide ((htext a, page a) ∈ seen)) as [Hin | Hout].
    + destruct (IH seen) as [Hnd Hk]. split; [exact Hnd |].
      intros h Hh. destruct (Hk h Hh). split; [assumption | right; assumption].
    + destruct (IH ({[(htext a, page a)]} ∪ seen)) as [Hnd Hk]. split.
      * rewrite fmap_cons. apply NoDup_cons. split; [| exact Hnd].
        intros Ha. apply list_elem_of_fmap in Ha as (h & E & Hh).
        destruct (Hk h Hh) as [Hn _]. apply Hn.
        rewrite elem_of_union, elem_of_singleton. left. symmetry. exact E.
      * intros h Hh. apply elem_of_cons in Hh as [-> | Hh].
        -- split; [exact Hout | left].
        -- destruct (Hk h Hh) as [Hn Hl]. split; [| right; exact Hl].
           intros Hs. apply Hn. apply elem_of_union. right. exact Hs.
Qed.

(** The assembler keeps a list that is already free of duplicates and in
    order. *)
Lemma post_process_fixed r :
  NoDup (hkey <$> r) -> StronglySorted (not_after heading_lt) r ->
  post_process_headings r = r.
Proof.
  intros Hnd Hs. unfold post_process_headings.
  destruct r as [| a r]; [reflexivity |].
  rewrite unique_headings_fixed; [| exact Hnd | intros h _; apply not_elem_of_empty].
  apply sorted_by_fixed, Hs.
Qed.

Lemma post_process_keys l : NoDup (hkey <$> post_process_headings l).
Proof.
  unfold post_process_headings. destruct l as [| a l]; [constructor |].
  rewrite sorted_by_perm. apply unique_headings_keys.
Qed.

Lemma post_process_sorted l :
  StronglySorted (not_after heading_lt) (post_process_headings l).
Proof.
  unfold post_process_headings. destruct l as [| a l]; [constructor |].
  apply sorted_by_sorted; [apply heading_lt_asym | apply heading_lt_negtrans].
Qed.

(** C8: the assembler is idempotent: applied to its own output,
    [post_process_headings] returns that output. *)
Theorem post_process_headings_idempotent (l : list HeadingInfo) :
  post_process_headings (post_process_headings l) = post_process_headings l.
Proof.
  apply post_process_fixed; [apply post_process_keys | apply post_process_sorted].
Qed.

(** ** Noise and the assembler *)

Section NoiseInOutline.
Context {U : UnicodeData}.

Lemma clean_headings_no_noise l : forall seen h,
  h ∈ EnhancedPDFOutlineExtractor.clean_headings seen l ->
  is_noise (htext h) = false.
Proof.
  induction l as [| a l IH]; intros seen h; simpl.
  - intros H. inversion H.
  - destruct (is_noise (htext a)) eqn:E; [apply IH |].
    destruct (decide ((strip (htext a), page a) ∈ seen)); [apply IH |].
    intros H. apply elem_of_cons in H as [-> | H]; [exact E | eapply IH, H].
Qed.

(** The assembler of [EnhancedPDFOutlineExtractor], which the extraction does
    not call, drops every noise candidate. *)
Lemma enhanced_post_process_no_noise l h :
  h ∈ EnhancedPDFOutlineExtractor.post_process_headings l ->
  is_noise (htext h) = false.
Proof.
  unfold EnhancedPDFOutlineExtractor.post_process_headings. rewrite sorted_by_perm.
  apply clean_headings_no_noise.
Qed.

(** C1, on the code: the assembler that [extract_headings_from_pdf] calls
    keeps a candidate whose text is the bare page number ["12"], which
    [is_noise] recognises; the assembler of the other class drops it. *)
Theorem post_process_keeps_noise :
  is_noise (htext page_number_heading) = true /\
  post_process_headings [page_number_heading] = [page_number_heading] /\
  EnhancedPDFOutlineExtractor.post_process_headings [page_number_heading] = [].
Proof.
  split; [exact is_noise_twelve |]. split; [reflexivity |].
  unfold EnhancedPDFOutlineExtractor.post_process_headings.
  simpl EnhancedPDFOutlineExtractor.clean_headings.
  change (htext page_number_heading) with (cp "12").
  rewrite is_noise_twelve. reflexivity.
Qed.

End NoiseInOutline.

(** The candidate above is what the extraction produces for a page whose only
    line is a page number set in 14 pt (evaluated with the ASCII tables). *)
Example page_number_reaches_outline :
  @extract_headings_from_pdf ascii_only init_thresholds page_number_file
  = (init_thresholds, (None, [page_number_heading])).
Proof. vm_compute. reflexivity. Qed.

(** ** Font statistics *)

Lemma size_desc_asym a b : size_desc a b = true -> size_desc b a = false.
Proof.
  unfold size_desc. rewrite Qlt_bool_iff, Qlt_bool_false. apply Qlt_le_weak.
Qed.

Lemma size_desc_negtrans a b c :
  size_desc a b = false -> size_desc b c = false -> size_desc a c = false.
Proof.
  unfold size_desc. rewrite !Qlt_bool_false. intros H1 H2.
  eapply Qle_trans; eassumption.
Qed.

Lemma distinct_NoDupA l : NoDupA Qeq (distinct l).
Proof.
  induction l as [| x l IH]; simpl; [constructor |].
  destruct (existsb (Qeq_bool x) (distinct l)) eqn:E; [exact IH |].
  constructor; [| exact IH].
  intros H. apply InA_alt in H as (y & Hxy & Hy).
  apply not_true_iff_false in E. apply E. apply existsb_exists.
  exists y. split; [exact Hy | apply Qeq_bool_iff, Hxy].
Qed.

Lemma distinct_In x l : In x (distinct l) -> In x l.
Proof.
  induction l as [| a l IH]; simpl; [tauto |].
  destruct (existsb (Qeq_bool a) (distinct l)); simpl; tauto.
Qed.

Lemma distinct_complete x l :
  In x l -> exists y, In y (distinct l) /\ (x == y)%Q.
Proof.
  induction l as [| a l IH]; simpl; [tauto |].
  intros [-> | H].
  - destruct (existsb (Qeq_bool x) (distinct l)) eqn:E.
    + apply existsb_exists in E as (y & Hy & E).
      exists y. split; [exact Hy | apply Qeq_bool_iff, E].
    + exists x. split; [left; reflexivity | reflexivity].
  - destruct (IH H) as (y & Hy & E). exists y. split; [| exact E].
    destruct (existsb (Qeq_bool a) (distinct l)); [| right]; exact Hy.
Qed.

Lemma sorted_sizes_perm sizes : sorted_sizes sizes ≡ₚ distinct sizes.
Proof. apply sorted_by_perm. Qed.

Lemma strictly_sorted l :
  StronglySorted (not_after size_desc) l -> NoDupA Qeq l ->
  StronglySorted (fun a b => (b < a)%Q) l.
Proof.
  induction 1 as [| a l Hs IH Ha]; intros Hnd; [constructor |].
  inversion Hnd as [| ? ? Hna Hnd']; subst.
  constructor; [apply IH, Hnd' |].
  rewrite List.Forall_forall in *. intros b Hb.
  specialize (Ha b Hb). unfold not_after, size_desc in Ha.
  apply Qlt_bool_false in Ha.
  destruct (Qlt_le_dec b a) as [L | G]; [exact L |].
  exfalso. apply Hna. apply InA_alt. exists b. split; [| exact Hb].
  apply Qle_antisym; assumption.
Qed.

(** The sorted sizes decrease strictly. *)
Lemma sorted_sizes_decreasing sizes :
  StronglySorted (fun a b => (b < a)%Q) (sorted_sizes sizes).
Proof.
  apply strictly_sorted.
  - apply sorted_by_sorted.
    + apply size_desc_asym.
    + apply size_desc_negtrans.
  - eapply PermutationA_preserves_NoDupA; [apply Q_Setoid | |
      apply distinct_NoDupA].
    apply Permutation_PermutationA; [apply Q_Setoid |].
    symmetry. apply sorted_sizes_perm.
Qed.

Lemma sorted_sizes_In x sizes :
  In x (sorted_sizes sizes) <-> In x (distinct sizes).
Proof.
  split; apply Permutation_in; [| symmetry]; apply sorted_sizes_perm.
Qed.

Lemma sorted_sizes_length sizes :
  length (sorted_sizes sizes) = length (distinct sizes).
Proof. apply Permutation_length, sorted_sizes_perm. Qed.

(** With fewer than four distinct sizes the thresholds are left alone. *)
Lemma update_thresholds_few th sizes :
  (length (distinct sizes) < 4)%nat -> update_thresholds th sizes = th.
Proof.
  intros H. unfold update_thresholds. rewrite sorted_sizes_length.
  destruct (nonempty_list sizes); [| reflexivity].
  destruct (Nat.leb_spec 4 (length (distinct sizes))); [lia | reflexivity].
Qed.

(** With four or more, they are the second, third and fourth largest. *)
Lemma update_thresholds_many th sizes :
  (4 <= length (distinct sizes))%nat ->
  exists s0 s1 s2 s3 rest,
    sorted_sizes sizes = s0 :: s1 :: s2 :: s3 :: rest /\
    update_thresholds th sizes =
    {| th_title := th_title th; th_h1 := s1; th_h2 := s2; th_h3 := s3 |}.
Proof.
  intros H. unfold update_thresholds.
  destruct sizes as [| a sizes]; [simpl in H; lia |].
  simpl nonempty_list. cbv iota.
  rewrite <- sorted_sizes_length in H.
  destruct (sorted_sizes (a :: sizes)) as [| s0 [| s1 [| s2 [| s3 rest]]]];
    simpl in H; try lia.
  exists s0, s1, s2, s3, rest. split; reflexivity.
Qed.

Section ThresholdsOfARun.
Context {U : UnicodeData}.

(** The thresholds an extractor holds after a call, which are those its
    classification pass used. *)
Lemma extract_thresholds th f :
  fst (extract_headings_from_pdf th f) =
  match pdf_document f with
  | Some doc =>
      match read_pages doc with
      | Some pages => update_thresholds th (all_font_sizes pages)
      | None => th
      end
  | None => th
  end.
Proof.
  unfold extract_headings_from_pdf.
  destruct (pdf_document f) as [doc |]; [| reflexivity].
  destruct (read_pages doc); reflexivity.
Qed.

Lemma process_pdf_thresholds th f w :
  fst (process_pdf th f w) = fst (extract_headings_from_pdf th f).
Proof.
  unfold process_pdf.
  destruct (extract_headings_from_pdf th f) as [th' [title headings]].
  destruct w; reflexivity.
Qed.

Lemma process_all_thresholds th f files :
  map fst (process_all th (f :: files)) =
  fst (extract_headings_from_pdf th f)
  :: map fst (process_all (fst (extract_headings_from_pdf th f)) files).
Proof. simpl. rewrite process_pdf_thresholds. reflexivity. Qed.

(** A fresh extractor, as [process_single_pdf] creates one, classifies a
    document of fewer than four sizes with the defaults. *)
Lemma fresh_extractor_defaults f doc pages :
  pdf_document f = Some doc -> read_pages doc = Some pages ->
  (length (distinct (all_font_sizes pages)) < 4)%nat ->
  fst (extract_headings_from_pdf init_thresholds f) = init_thresholds.
Proof.
  intros Hd Hp Hn. rewrite extract_thresholds, Hd, Hp.
  apply update_thresholds_few, Hn.
Qed.

(** C3, on the code: the extractor of [main] processes a document with the
    sizes 20, 18, 16, 14 and then one with the single size 12; the second
    document has fewer than four distinct sizes, and its classification pass
    runs with the thresholds 18, 16, 14 of the first, not with the defaults. *)
Theorem thresholds_carry_over :
  (length (distinct (all_font_sizes [one_size_page])) < 4)%nat /\
  map fst (process_all init_thresholds [four_sizes_file; one_size_file]) =
  [ {| th_title := 16; th_h1 := 18; th_h2 := 16; th_h3 := 14 |};
    {| th_title := 16; th_h1 := 18; th_h2 := 16; th_h3 := 14 |} ] /\
  fst (extract_headings_from_pdf init_thresholds one_size_file)
  = init_thresholds.
Proof.
  split; [vm_compute; lia |].
  rewrite !process_all_thresholds, !extract_thresholds.
  split; reflexivity.
Qed.

(** C6: when a readable document has at least four distinct sizes among its
    non-blank spans, the thresholds of its classification pass satisfy
    h1 >= h2 >= h3, each is one of the document's distinct sizes, and h1 lies
    strictly below the largest size of the document. *)
Theorem calibrated_thresholds_ordered th f doc pages :
  pdf_document f = Some doc -> read_pages doc = Some pages ->
  (4 <= length (distinct (all_font_sizes pages)))%nat ->
  let sizes := all_font_sizes pages in
  let th' := fst (extract_headings_from_pdf th f) in
  (th_h2 th' <= th_h1 th')%Q /\ (th_h3 th' <= th_h2 th')%Q /\
  In (th_h1 th') (distinct sizes) /\ In (th_h2 th') (distinct sizes) /\
  In (th_h3 th') (distinct sizes) /\
  exists m, In m sizes /\ (forall x, In x sizes -> (x <= m)%Q)
            /\ (th_h1 th' < m)%Q.
Proof.
  intros Hd Hp Hn sizes th'. subst th'.
  rewrite extract_thresholds, Hd, Hp. fold sizes.
  destruct (update_thresholds_many th sizes Hn)
    as (s0 & s1 & s2 & s3 & rest & Hss & ->). simpl.
  pose proof (sorted_sizes_decreasing sizes) as Hdec. rewrite Hss in Hdec.
  apply StronglySorted_inv in Hdec as [Hdec1 H0].
  apply StronglySorted_inv in Hdec1 as [Hdec2 H1].
  apply StronglySorted_inv in Hdec2 as [_ H2].
  rewrite List.Forall_forall in H0, H1, H2.
  assert (Hin : forall x, In x (s0 :: s1 :: s2 :: s3 :: rest) ->
                          In x (distinct sizes)).
  { intros x Hx. apply sorted_sizes_In. rewrite Hss. exact Hx. }
  split; [apply Qlt_le_weak, H1; simpl; auto |].
  split; [apply Qlt_le_weak, H2; simpl; auto |].
  split; [apply Hin; simpl; auto |].
  split; [apply Hin; simpl; auto |].
  split; [apply Hin; simpl; auto |].
  exists s0. split; [apply distinct_In, Hin; simpl; auto |].
  split; [| apply H0; simpl; auto].
  intros x Hx. apply distinct_complete in Hx as (y & Hy & E).
  rewrite E. apply sorted_sizes_In in Hy. rewrite Hss in Hy.
  destruct Hy as [<- | Hy]; [apply Qle_refl | apply Qlt_le_weak, H0, Hy].
Qed.

End ThresholdsOfARun.

Lemma calibrated_thresholds_witness :
  (4 <= length (distinct (all_font_sizes [four_sizes_page])))%nat /\
  let th' := fst (@extract_headings_from_pdf ascii_only init_thresholds
                    four_sizes_file) in
  (th_h2 th' <= th_h1 th')%Q.
Proof.
  split; [vm_compute; lia |].
  refine (proj1 (@calibrated_thresholds_ordered ascii_only init_thresholds
                   four_sizes_file _ _ eq_refl eq_refl _)).
  vm_compute. lia.
Defined.

(** ** Merging the spans of a line *)

Lemma last_cons {A} (l : list A) :
  forall a d, List.last (a :: l) d = List.last l a.
Proof.
  induction l as [| b l IH]; intros a d; [reflexivity |].
  change (List.last (a :: b :: l) d) with (List.last (b :: l) d).
  rewrite !IH. reflexivity.
Qed.

(** [flags & (1 << 4)] is non-zero exactly when bit 4 of [flags] is set. *)
Lemma flag_bit_4 (flags : Z) :
  negb (Z.land flags (Z.shiftl 1 4) =? 0)%Z = Z.testbit flags 4.
Proof.
  change (Z.shiftl 1 4) with (2 ^ 4)%Z.
  assert (H : Z.land flags (2 ^ 4) = if Z.testbit flags 4 then (2 ^ 4)%Z else 0%Z).
  { apply Z.bits_inj'. intros n Hn.
    rewrite Z.land_spec, Z.pow2_bits_eqb by lia.
    destruct (Z.eqb_spec 4 n) as [<- | Hne].
    - rewrite andb_true_r. destruct (Z.testbit flags 4).
      + rewrite Z.pow2_bits_true; [reflexivity | lia].
      + rewrite Z.bits_0. reflexivity.
    - rewrite andb_false_r. destruct (Z.testbit flags 4).
      + rewrite Z.pow2_bits_false; [reflexivity | lia].
      + rewrite Z.bits_0. reflexivity. }
  rewrite H. destruct (Z.testbit flags 4); reflexivity.
Qed.

Section LineMerge.
Context {U : UnicodeData}.

Lemma merge_fold spans : forall acc,
  fold_left merge_span spans acc =
  let nb := List.filter nonblank spans in
  {| acc_text := acc_text acc ++ concat (map span_text nb);
     acc_sum := fold_left Qplus (map span_size nb) (acc_sum acc);
     acc_bold := acc_bold acc || existsb span_is_bold nb;
     acc_font := List.last (map span_font nb) (acc_font acc);
     acc_count := acc_count acc + Z.of_nat (length nb) |}.
Proof.
  induction spans as [| sp spans IH]; intros [t s b f n]; cbv zeta.
  - simpl. rewrite app_nil_r, orb_false_r, Z.add_0_r. reflexivity.
  - simpl fold_left. simpl List.filter. unfold merge_span at 2.
    change (nonempty (strip (span_text sp))) with (nonblank sp).
    destruct (nonblank sp); rewrite IH; cbv zeta; [| reflexivity].
    cbn [acc_text acc_sum acc_bold acc_font acc_count map concat fold_left
         existsb length].
    f_equal.
    + symmetry. apply app_assoc.
    + destruct (span_is_bold sp), b; reflexivity.
    + symmetry. apply last_cons.
    + lia.
Qed.

Lemma merge_line_filter spans :
  merge_line spans = merge_line (List.filter nonblank spans).
Proof.
  unfold merge_line. rewrite !merge_fold. cbv zeta.
  assert (E : List.filter nonblank (List.filter nonblank spans)
              = List.filter nonblank spans).
  { induction spans as [| sp spans IH]; [reflexivity |]. simpl.
    destruct (nonblank sp) eqn:Hsp; simpl; rewrite ?Hsp, IH; reflexivity. }
  rewrite E. reflexivity.
Qed.

(** C10: in the merge of a line a blank span contributes nothing: the merged
    state, and so the line text, the average size and the boldness, are those
    of the non-blank spans alone; the line is bold exactly when one of its
    non-blank spans has "bold" in its lower-cased font name or bit 4 of its
    flags set; and the recorded font name is that of the last non-blank
    span. *)
Theorem merge_line_non_blank_spans (spans : list Span) :
  let nb := List.filter nonblank spans in
  merge_line spans = merge_line nb /\
  avg_font_size (merge_line spans) = avg_font_size (merge_line nb) /\
  acc_text (merge_line spans) = concat (map span_text nb) /\
  acc_sum (merge_line spans) = fold_left Qplus (map span_size nb) 0%Q /\
  acc_count (merge_line spans) = Z.of_nat (length nb) /\
  (acc_bold (merge_line spans) = true <->
   exists sp, In sp spans /\ nonblank sp = true /\
     (contains (cp "bold") (lower (span_font sp)) = true \/
      Z.testbit (default 0%Z (span_flags sp)) 4 = true)) /\
  acc_font (merge_line spans) = List.last (map span_font nb) [].
Proof.
  cbv zeta. split; [apply merge_line_filter |].
  split; [rewrite <- merge_line_filter; reflexivity |].
  unfold merge_line. rewrite merge_fold. cbv zeta. simpl.
  repeat split; try reflexivity.
  - intros H. apply existsb_exists in H as (sp & Hsp & Hb).
    apply filter_In in Hsp as [Hin Hnb]. exists sp.
    split; [exact Hin |]. split; [exact Hnb |].
    unfold span_is_bold in Hb. rewrite flag_bit_4 in Hb.
    apply orb_true_iff in Hb. exact Hb.
  - intros (sp & Hin & Hnb & Hb). apply existsb_exists. exists sp.
    split; [apply filter_In; auto |].
    unfold span_is_bold. rewrite flag_bit_4. apply orb_true_iff. exact Hb.
Qed.

End LineMerge.

(** ** Results per document *)

Section Results.
Context {U : UnicodeData}.

(** C9: the result of [process_single_pdf] has at most five sections; they
    are the first headings of the assembled sequence, in its order, and the
    score of each is 0.90. *)
Theorem process_single_pdf_sections (f : PdfFile) :
  let headings := snd (snd (extract_headings_from_pdf init_thresholds f)) in
  let sections := res_sections (process_single_pdf f) in
  (length sections <= 5)%nat /\
  length sections = Nat.min 5 (length headings) /\
  map sec_heading sections = map htext (firstn 5 headings) /\
  map sec_page sections = map page (firstn 5 headings) /\
  Forall (fun s => sec_score s = (9 # 10)%Q) sections.
Proof.
  cbv zeta. unfold process_single_pdf.
  destruct (extract_headings_from_pdf init_thresholds f)
    as [th' [title headings]].
  cbn [snd res_sections]. rewrite length_map, length_firstn, !map_map.
  cbn [sec_heading sec_page].
  split; [lia |]. split; [reflexivity |]. split; [reflexivity |].
  split; [reflexivity |].
  apply List.Forall_forall. intros s Hs.
  apply in_map_iff in Hs as (h & <- & _). reflexivity.
Qed.

(** The title never comes from the first page: it is the metadata title, or
    absent. *)
Lemma extract_title th f :
  fst (snd (extract_headings_from_pdf th f)) = None \/
  fst (snd (extract_headings_from_pdf th f)) = extract_title_from_metadata f.
Proof.
  unfold extract_headings_from_pdf.
  destruct (pdf_document f) as [doc |]; [| left; reflexivity].
  destruct (read_pages doc); [| left; reflexivity].
  destruct (extract_title_from_metadata f) as [t |]; [| left; reflexivity].
  destruct (nonempty t); [right | left]; reflexivity.
Qed.

Lemma extract_title_without_metadata th f :
  pdf_metadata_title f = None ->
  fst (snd (extract_headings_from_pdf th f)) = None.
Proof.
  intros H. destruct (extract_title th f) as [E | E]; [exact E |].
  rewrite E. unfold extract_title_from_metadata. rewrite H. reflexivity.
Qed.

(** What an unreadable document gives. *)
Lemma extract_unreadable th f :
  (pdf_document f = None \/
   exists doc, pdf_document f = Some doc /\ read_pages doc = None) ->
  extract_headings_from_pdf th f = (th, (None, [])).
Proof.
  unfold extract_headings_from_pdf.
  intros [-> | (doc & -> & ->)]; reflexivity.
Qed.

(** What the code does with a document that cannot be opened or has a page
    that cannot be decoded: the extraction returns no title and no headings
    and leaves the extractor as it was; [process_pdf] then writes the
    placeholder title with an empty outline and returns [True],
    [process_single_pdf] gives no sections, and a readable document for
    which the extraction finds no title and no heading gives the same
    written result. *)
Theorem unreadable_document_result th f :
  (pdf_document f = None \/
   exists doc, pdf_document f = Some doc /\ read_pages doc = None) ->
  extract_headings_from_pdf th f = (th, (None, [])) /\
  process_pdf th f true
  = (th, (true, Some {| out_title := cp "Document"; out_outline := [] |})) /\
  res_sections (process_single_pdf f) = [] /\
  (forall th2 g,
     snd (extract_headings_from_pdf th2 g) = (None, []) ->
     snd (process_pdf th2 g true) = snd (process_pdf th f true)).
Proof.
  intros H. pose proof (extract_unreadable th f H) as E.
  pose proof (extract_unreadable init_thresholds f H) as E0.
  split; [exact E |]. unfold process_pdf, process_single_pdf.
  rewrite E, E0. split; [reflexivity |]. split; [reflexivity |].
  intros th2 g Hg.
  destruct (extract_headings_from_pdf th2 g) as [th' [title headings]].
  simpl in Hg. injection Hg as -> ->. reflexivity.
Qed.

End Results.

Lemma unreadable_document_witness :
  (exists doc, pdf_document damaged_file = Some doc /\ read_pages doc = None) /\
  @extract_headings_from_pdf ascii_only init_thresholds damaged_file
  = (init_thresholds, (None, [])).
Proof.
  assert (H : exists doc,
             pdf_document damaged_file = Some doc /\ read_pages doc = None).
  { eexists. split; reflexivity. }
  split; [exact H |].
  exact (proj1 (@unreadable_document_result ascii_only init_thresholds
                  damaged_file (or_intror H))).
Defined.

(** With the ASCII tables: the file that cannot be opened and the readable
    document without pages (no title, zero headings) give the same returned
    pair, the same written output and the same sections. *)
Lemma failure_same_as_empty_success :
  pdf_document unreadable_file = None /\
  pdf_document empty_file = Some [] /\
  @extract_headings_from_pdf ascii_only init_thresholds unreadable_file
  = @extract_headings_from_pdf ascii_only init_thresholds empty_file /\
  @process_pdf ascii_only init_thresholds unreadable_file true
  = @process_pdf ascii_only init_thresholds empty_file true /\
  @process_single_pdf ascii_only unreadable_file
  = @process_single_pdf ascii_only empty_file.
Proof. repeat split. Qed.

(** ** The title *)

Section Title.
Context {U : UnicodeData}.

Lemma flat_map_ext_in {A B} (f g : A -> list B) l :
  (forall x, In x l -> f x = g x) -> flat_map f l = flat_map g l.
Proof.
  induction l as [| x l IH]; intros H; simpl; [reflexivity |].
  rewrite (H x) by (left; reflexivity).
  rewrite IH by (intros y Hy; apply H; right; exact Hy). reflexivity.
Qed.

Lemma lower_ascii s : is_ascii s = true -> @lower U s = @lower ascii_only s.
Proof.
  intros Hs. unfold lower. apply flat_map_ext_in. intros c Hc.
  unfold is_ascii in Hs. rewrite forallb_forall in Hs.
  specialize (Hs c Hc). apply N.ltb_lt in Hs.
  rewrite (@uni_lower_full_ascii U c Hs).
  rewrite (@uni_lower_full_ascii ascii_only c Hs). reflexivity.
Qed.

(** The merge routine gives a title for every non-empty list of
    candidates. *)
Lemma merge_title_candidates_some cands :
  cands <> [] -> exists t, merge_title_candidates cands = Some t.
Proof.
  intros H. unfold merge_title_candidates.
  destruct (sorted_by cand_lt cands) as [| c0 rest] eqn:E; [| eauto].
  exfalso. apply H. apply Permutation_nil.
  rewrite <- E. apply sorted_by_perm.
Qed.

(** C2, on the code: on the first page of the sample report one span passes
    the three filters, and merging the candidates gives ["Report Title"];
    yet [extract_title_from_first_page] returns nothing for any document,
    the extraction of the report has no title, and the written title is the
    placeholder. *)
Theorem first_page_title_is_lost :
  first_page_candidates report_first_page = [(cp "Report Title", 20%Q, 80%Q)] /\
  merge_title_candidates (first_page_candidates report_first_page)
  = Some (cp "Report Title") /\
  (forall doc, extract_title_from_first_page doc = None) /\
  pdf_metadata_title report_file = None /\
  fst (snd (extract_headings_from_pdf init_thresholds report_file)) = None /\
  out_title (format_output None []) = cp "Document".
Proof.
  assert (E : first_page_candidates report_first_page
              = [(cp "Report Title", 20%Q, 80%Q)]).
  { unfold first_page_candidates, line_title_candidates.
    cbn [report_first_page sample_page sample_line sample_span page_blocks
         block_lines line_spans span_text span_size line_top page_height
         flat_map app].
    eval_strip. rewrite lower_ascii by reflexivity.
    vm_compute. reflexivity. }
  rewrite E. split; [reflexivity |]. split; [vm_compute; reflexivity |].
  split; [reflexivity |]. split; [reflexivity |].
  split; [apply extract_title_without_metadata; reflexivity | reflexivity].
Qed.

End Title.

(** ** The text cleaner on examples (ASCII tables) *)

Example clean_heading_text_example :
  @clean_heading_text ascii_only (cp "  - Hello   World  12 ") = cp "Hello World".
Proof. vm_compute. reflexivity. Qed.

Example clean_heading_text_inner_number :
  @clean_heading_text ascii_only (cp "a 1 2") = cp "a 1".
Proof. vm_compute. reflexivity. Qed.

Example heading_gate_ignores_case :
  @is_heading_by_pattern ascii_only (cp "hello") = true /\
  @is_heading_by_pattern ascii_only (cp "12 hello") = false.
Proof. vm_compute. auto. Qed.

(** * Further properties of the code *)

(** ** More on [strip] *)

Lemma drop_while_idem {A} (p : A -> bool) l :
  drop_while p (drop_while p l) = drop_while p l.
Proof.
  induction l as [| x l IH]; simpl; [reflexivity |].
  destruct (p x) eqn:E; [exact IH |]. simpl. rewrite E. reflexivity.
Qed.

Lemma drop_while_snoc {A} (p : A -> bool) l c :
  p c = false -> drop_while p (l ++ [c]) = drop_while p l ++ [c].
Proof.
  intros Hc. induction l as [| x l IH]; simpl.
  - rewrite Hc. reflexivity.
  - destruct (p x); [exact IH | reflexivity].
Qed.

Lemma drop_while_In {A} (p : A -> bool) l x :
  In x (drop_while p l) -> In x l.
Proof.
  induction l as [| y l IH]; simpl; [tauto |].
  destruct (p y); simpl; tauto.
Qed.

Lemma rstrip_cons c l : is_space c = false -> rstrip (c :: l) = c :: rstrip l.
Proof.
  intros Hc. unfold rstrip. simpl rev. rewrite drop_while_snoc by exact Hc.
  rewrite rev_app_distr. reflexivity.
Qed.

Lemma rstrip_idem l : rstrip (rstrip l) = rstrip l.
Proof. unfold rstrip. rewrite rev_involutive, drop_while_idem. reflexivity. Qed.

(** A stripped string does not start with white space. *)
Lemma strip_first t c s' : strip t = c :: s' -> is_space c = false.
Proof.
  unfold strip. destruct (lstrip t) as [| c0 l] eqn:E; [discriminate |].
  apply drop_while_head in E. rewrite rstrip_cons by exact E.
  intros H. injection H as <- _. exact E.
Qed.

Lemma lstrip_fixed s :
  (forall c s', s = c :: s' -> is_space c = false) -> lstrip s = s.
Proof.
  destruct s as [| c s]; [reflexivity |]. intros H. unfold lstrip. simpl.
  rewrite (H c s eq_refl). reflexivity.
Qed.

Lemma strip_idem t : strip (strip t) = strip t.
Proof.
  unfold strip at 1. rewrite (lstrip_fixed (strip t)).
  - unfold strip. apply rstrip_idem.
  - intros c s'. apply strip_first.
Qed.

Lemma strip_In t c : In c (strip t) -> In c t.
Proof.
  unfold strip, rstrip, lstrip. intros H. apply in_rev in H.
  apply drop_while_In in H. apply in_rev in H.
  apply drop_while_In in H. exact H.
Qed.

Lemma strip_length t : (length (strip t) <= length t)%nat.
Proof.
  assert (D : forall (l : text), (length (drop_while is_space l) <= length l)%nat).
  { induction l as [| x l IH]; simpl; [lia |].
    destruct (is_space x); simpl; lia. }
  unfold strip, rstrip, lstrip. rewrite length_rev.
  etransitivity; [apply D |]. rewrite length_rev. apply D.
Qed.

(** ** The outline that [post_process_headings] returns *)

Lemma StronglySorted_weaken {A} (R R' : A -> A -> Prop) l :
  (forall a b, R a b -> R' a b) -> StronglySorted R l -> StronglySorted R' l.
Proof.
  intros H. induction 1 as [| a l Hs IH Ha]; constructor; [exact IH |].
  eapply Forall_impl; [exact Ha | auto].
Qed.

Lemma not_after_outline_order a b :
  not_after heading_lt a b -> outline_order a b.
Proof.
  unfold not_after, heading_lt, outline_order, heading_key.
  rewrite pairZQ_lt_false. simpl.
  intros [H | [E H]]; [left; exact H | right].
  split; [symmetry; exact E |]. apply Qopp_le_compat in H.
  rewrite !Qopp_involutive in H. exact H.
Qed.

(** X1: whatever the candidates, the outline returned by
    [post_process_headings] has pairwise different (text, page) keys and is
    ordered by page ascending and, within a page, font size descending. *)
Theorem outline_unique_and_ordered (l : list HeadingInfo) :
  NoDup (hkey <$> post_process_headings l) /\
  StronglySorted outline_order (post_process_headings l).
Proof.
  split; [apply post_process_keys |].
  eapply StronglySorted_weaken; [exact not_after_outline_order |].
  apply post_process_sorted.
Qed.

Lemma unique_headings_first l : forall seen h,
  h ∈ unique_headings seen l ->
  (hkey h ∉ seen) /\ first_with_key (hkey h) l = Some h.
Proof.
  unfold first_with_key.
  induction l as [| a l IH]; intros seen h; simpl.
  - intros H. inversion H.
  - change (htext a, page a) with (hkey a).
    destruct (decide (hkey a ∈ seen)) as [Hin | Hout].
    + intros H. destruct (IH seen h H) as [Hn Hf]. split; [exact Hn |].
      case_bool_decide as E; [| exact Hf].
      exfalso. apply Hn. rewrite <- E. exact Hin.
    + intros H. apply elem_of_cons in H as [-> | H].
      * split; [exact Hout |]. case_bool_decide; [reflexivity | congruence].
      * destruct (IH _ h H) as [Hn Hf].
        rewrite elem_of_union, elem_of_singleton in Hn.
        split; [tauto |].
        case_bool_decide as E; [| exact Hf].
        exfalso. apply Hn. left. symmetry. exact E.
Qed.

Lemma unique_headings_complete l : forall seen h,
  h ∈ l -> hkey h ∉ seen ->
  exists h', h' ∈ unique_headings seen l /\ hkey h' = hkey h.
Proof.
  induction l as [| a l IH]; intros seen h Hh Hn; [inversion Hh |].
  simpl. change (htext a, page a) with (hkey a).
  destruct (decide (hkey h = hkey a)) as [E | Hne].
  - destruct (decide (hkey a ∈ seen)) as [Hin | _].
    + exfalso. apply Hn. rewrite E. exact Hin.
    + exists a. split; [left | symmetry; exact E].
  - apply elem_of_cons in Hh as [-> | Hh]; [congruence |].
    destruct (decide (hkey a ∈ seen)) as [_ | _].
    + apply IH; assumption.
    + destruct (IH ({[hkey a]} ∪ seen) h Hh) as (h' & Hin' & Hk).
      * rewrite elem_of_union, elem_of_singleton. tauto.
      * exists h'. split; [right; exact Hin' | exact Hk].
Qed.

(** X2: [post_process_headings] invents and loses nothing: every heading of
    the outline is the first candidate of the input with its (text, page)
    key, and every key of the input is the key of an outline entry. *)
Theorem post_process_keeps_first_occurrences (l : list HeadingInfo) :
  (forall h, h ∈ post_process_headings l ->
             h ∈ l /\ first_with_key (hkey h) l = Some h) /\
  (forall h, h ∈ l ->
             exists h', h' ∈ post_process_headings l /\ hkey h' = hkey h).
Proof.
  unfold post_process_headings. destruct l as [| a l].
  - split; intros h H; inversion H.
  - split; intros h.
    + rewrite sorted_by_perm.
      intros H. destruct (unique_headings_first _ _ _ H) as [_ Hf].
      split; [| exact Hf]. unfold first_with_key in Hf.
      apply find_some in Hf as [Hin _]. apply list_elem_of_In. exact Hin.
    + intros H.
      destruct (unique_headings_complete (a :: l) ∅ h H) as (h' & Hin & Hk).
      * apply not_elem_of_empty.
      * exists h'. rewrite sorted_by_perm. auto.
Qed.

(** ** The assembler of [EnhancedPDFOutlineExtractor] *)

Section EnhancedAssembler.
Context {U : UnicodeData}.

Lemma clean_headings_keys l : forall seen,
  NoDup (stripped_key <$> EnhancedPDFOutlineExtractor.clean_headings seen l) /\
  (forall h, h ∈ EnhancedPDFOutlineExtractor.clean_headings seen l ->
             (stripped_key h ∉ seen) /\ (h ∈ l)).
Proof.
  induction l as [| a l IH]; intros seen; simpl.
  - split; [constructor | intros h Hh; inversion Hh].
  - change (strip (htext a), page a) with (stripped_key a).
    destruct (is_noise (htext a)).
    { destruct (IH seen) as [Hnd Hk]. split; [exact Hnd |].
      intros h Hh. destruct (Hk h Hh). split; [assumption | right; assumption]. }
    destruct (decide (stripped_key a ∈ seen)) as [Hin | Hout].
    + destruct (IH seen) as [Hnd Hk]. split; [exact Hnd |].
      intros h Hh. destruct (Hk h Hh). split; [assumption | right; assumption].
    + destruct (IH ({[stripped_key a]} ∪ seen)) as [Hnd Hk]. split.
      * rewrite fmap_cons. apply NoDup_cons. split; [| exact Hnd].
        intros Ha. apply list_elem_of_fmap in Ha as (h & E & Hh).
        destruct (Hk h Hh) as [Hn _]. apply Hn.
        rewrite elem_of_union, elem_of_singleton. left. symmetry. exact E.
      * intros h Hh. apply elem_of_cons in Hh as [-> | Hh].
        -- split; [exact Hout | left].
        -- destruct (Hk h Hh) as [Hn Hl]. split; [| right; exact Hl].
           intros Hs. apply Hn. apply elem_of_union. right. exact Hs.
Qed.

Lemma clean_headings_fixed l : forall seen,
  (forall h, h ∈ l -> is_noise (htext h) = false) ->
  NoDup (stripped_key <$> l) -> (forall h, h ∈ l -> stripped_key h ∉ seen) ->
  EnhancedPDFOutlineExtractor.clean_headings seen l = l.
Proof.
  induction l as [| a l IH]; intros seen Hnoise Hnd Hseen; simpl;
    [reflexivity |].
  change (strip (htext a), page a) with (stripped_key a).
  rewrite (Hnoise a) by left.
  rewrite fmap_cons in Hnd. apply NoDup_cons in Hnd as [Ha Hnd].
  destruct (decide (stripped_key a ∈ seen)) as [Hin | _].
  - exfalso. apply (Hseen a); [left | exact Hin].
  - f_equal. apply IH.
    + intros h Hh. apply Hnoise. right. exact Hh.
    + exact Hnd.
    + intros h Hh. rewrite elem_of_union, elem_of_singleton. intros [E | Hin].
      * apply Ha. rewrite <- E. apply list_elem_of_fmap_2. exact Hh.
      * apply (Hseen h); [right; exact Hh | exact Hin].
Qed.

(** X3: the outline returned by the assembler of
    [EnhancedPDFOutlineExtractor] consists of candidates of the input, none
    of which is noise; its entries differ pairwise in (stripped text, page),
    and it is ordered by page ascending, then font size descending. *)
Theorem enhanced_outline_invariants (l : list HeadingInfo) :
  (forall h, h ∈ EnhancedPDFOutlineExtractor.post_process_headings l ->
             h ∈ l /\ is_noise (htext h) = false) /\
  NoDup (stripped_key <$> EnhancedPDFOutlineExtractor.post_process_headings l) /\
  StronglySorted outline_order
    (EnhancedPDFOutlineExtractor.post_process_headings l).
Proof.
  split; [| split].
  - intros h Hh. split; [| eapply enhanced_post_process_no_noise, Hh].
    unfold EnhancedPDFOutlineExtractor.post_process_headings in Hh.
    rewrite sorted_by_perm in Hh. eapply clean_headings_keys, Hh.
  - unfold EnhancedPDFOutlineExtractor.post_process_headings.
    rewrite sorted_by_perm. apply clean_headings_keys.
  - eapply StronglySorted_weaken; [exact not_after_outline_order |].
    apply sorted_by_sorted; [apply heading_lt_asym | apply heading_lt_negtrans].
Qed.

(** X4: the assembler of [EnhancedPDFOutlineExtractor] is idempotent. *)
Theorem enhanced_post_process_idempotent (l : list HeadingInfo) :
  EnhancedPDFOutlineExtractor.post_process_headings
    (EnhancedPDFOutlineExtractor.post_process_headings l)
  = EnhancedPDFOutlineExtractor.post_process_headings l.
Proof.
  set (r := EnhancedPDFOutlineExtractor.post_process_headings l).
  unfold EnhancedPDFOutlineExtractor.post_process_headings at 1.
  rewrite clean_headings_fixed.
  - apply sorted_by_fixed. unfold r.
    apply sorted_by_sorted; [apply heading_lt_asym | apply heading_lt_negtrans].
  - intros h Hh. eapply enhanced_post_process_no_noise, Hh.
  - unfold r, EnhancedPDFOutlineExtractor.post_process_headings.
    rewrite sorted_by_perm. apply clean_headings_keys.
  - intros h _. apply not_elem_of_empty.
Qed.

End EnhancedAssembler.

(** ** Case-insensitive matching only adds matches *)

Lemma members_In lo hi c : in_range lo hi c = true -> In c (members lo hi).
Proof.
  unfold in_range, members. intros H. apply andb_true_iff in H as [Hlo Hhi].
  apply N.leb_le in Hlo, Hhi. apply in_map_iff. exists (N.to_nat c).
  split; [apply N2Nat.id |]. apply in_seq. lia.
Qed.

Section IgnoreCase.
Context {U : UnicodeData}.

Lemma folded_self xs c : In c xs -> folded xs c = true.
Proof.
  intros H. unfold folded. apply existsb_exists. exists c.
  split; [exact H |]. rewrite N.eqb_refl. reflexivity.
Qed.

Lemma atom_test_ignore_case a c :
  atom_test false a c = true -> atom_test true a c = true.
Proof.
  destruct a as [| | x | lo hi]; unfold atom_test; auto.
  - intros H. apply N.eqb_eq in H as ->. apply folded_self. left. reflexivity.
  - intros H. apply folded_self, members_In, H.
Qed.

Lemma set_test_ignore_case cs c :
  set_test false cs c = true -> set_test true cs c = true.
Proof.
  unfold set_test. rewrite !existsb_exists.
  intros (a & Ha & Ht). exists a. split; [exact Ha |].
  apply atom_test_ignore_case, Ht.
Qed.

Lemma matches_ignore_case r s : matches false r s -> matches true r s.
Proof.
  induction 1.
  - constructor.
  - constructor. apply set_test_ignore_case. assumption.
  - constructor; assumption.
  - apply M_alt_l. assumption.
  - apply M_alt_r. assumption.
  - constructor.
  - constructor; assumption.
Qed.

Lemma re_match_ignore_case p s :
  re_match false p s = true -> re_match true p s = true.
Proof.
  unfold re_match, eol_match. destruct (pat_eol p).
  - rewrite !orb_true_iff. intros [H | H].
    + left. apply full_match_iff, matches_ignore_case, full_match_iff, H.
    + right. destruct (rev s) as [| c s']; [discriminate |].
      apply andb_true_iff in H as [-> H]. simpl.
      apply full_match_iff, matches_ignore_case, full_match_iff, H.
  - rewrite !prefix_match_iff. intros (s1 & s2 & -> & H).
    exists s1, s2. split; [reflexivity | apply matches_ignore_case, H].
Qed.

(** The level the pattern stage of [classify_heading_level] assigns. *)
Lemma classify_by_pattern th size bold t p :
  (re_match true chapter_re (strip t)
   || re_match false numbered1_re (strip t)
   || re_match false numbered2_re (strip t)
   || re_match false numbered3_re (strip t)) = true ->
  exists lv, classify_heading_level th size bold t p = Some lv.
Proof.
  unfold classify_heading_level. intros H.
  destruct (re_match true chapter_re (strip t)); [eauto |].
  destruct (re_match false numbered1_re (strip t)); [eauto |].
  destruct (re_match false numbered2_re (strip t)); [eauto |].
  destruct (re_match false numbered3_re (strip t)); [eauto | discriminate].
Qed.

Lemma gate_accepts_patterns t :
  (re_match true chapter_re (strip t)
   || re_match false numbered1_re (strip t)
   || re_match false numbered2_re (strip t)
   || re_match false numbered3_re (strip t)) = true ->
  is_heading_by_pattern t = true.
Proof.
  unfold is_heading_by_pattern, common_heading_patterns. cbv zeta.
  cbn [existsb]. intros H. rewrite !orb_true_iff in H.
  destruct H as [[[H | H] | H] | H];
    try apply re_match_ignore_case in H; rewrite H;
    repeat (cbn [orb]; rewrite ?orb_true_r); reflexivity.
Qed.

(** X5: a line whose cleaned text has between 2 and 200 characters and starts
    like a chapter or numbered heading always becomes a heading, whatever its
    font size, boldness and the thresholds: the eligibility test never stops
    what the pattern stage of the classifier would level. *)
Theorem numbered_line_is_heading th page_num (l : Line) :
  let t := clean_heading_text (acc_text (merge_line (line_spans l))) in
  (2 <= len t <= 200)%Z ->
  (re_match true chapter_re (strip t)
   || re_match false numbered1_re (strip t)
   || re_match false numbered2_re (strip t)
   || re_match false numbered3_re (strip t)) = true ->
  exists h, heading_of_line th page_num l = Some h /\
            htext h = t /\ page h = (page_num + 1)%Z /\
            Some (level h) =
            classify_heading_level th
              (avg_font_size (merge_line (line_spans l)))
              (acc_bold (merge_line (line_spans l))) t (page_num + 1).
Proof.
  intros t Hlen Hpat. unfold heading_of_line. fold t.
  destruct (Z.ltb_spec (len t) 2); [lia |].
  destruct (Z.ltb_spec 200 (len t)); [lia |]. cbn [orb].
  rewrite (gate_accepts_patterns t Hpat). cbn [orb].
  destruct (classify_by_pattern th
              (avg_font_size (merge_line (line_spans l)))
              (acc_bold (merge_line (line_spans l))) t (page_num + 1) Hpat)
    as [lv ->].
  eexists. split; [reflexivity |]. cbn. auto.
Qed.

(** X6: the gate and the classifier ignore white space around the text. *)
Theorem classification_ignores_surrounding_space th size bold t p :
  is_heading_by_pattern (strip t) = is_heading_by_pattern t /\
  classify_heading_level th size bold (strip t) p
  = classify_heading_level th size bold t p.
Proof.
  unfold is_heading_by_pattern, classify_heading_level, level_by_size.
  rewrite !strip_idem. split; reflexivity.
Qed.

End IgnoreCase.

Lemma numbered_line_is_heading_witness :
  exists h,
    @heading_of_line ascii_only init_thresholds 1
      (sample_line 100 [sample_span "2.1 Background" 9]) = Some h /\
    page h = 2%Z.
Proof.
  destruct (@numbered_line_is_heading ascii_only init_thresholds 1
              (sample_line 100 [sample_span "2.1 Background" 9]))
    as (h & H1 & _ & H3 & _).
  - vm_compute. split; discriminate.
  - vm_compute. reflexivity.
  - exists h. split; [exact H1 | exact H3].
Defined.

(** ** Substitution *)

(** The three outcomes of a match attempt in [sub_scan]. *)
Ltac scan_cases n :=
  match goal with
  | |- context [match ?e with Some _ => _ | None => _ end] =>
      destruct e as [[| n] |]
  end.

Section SubstitutionFacts.
Context {U : UnicodeData}.

Lemma sub_scan_In anchored p repl s : forall at_start skip x,
  In x (sub_scan anchored p repl at_start skip s) -> In x s \/ In x repl.
Proof.
  induction s as [| c s IH]; intros at_start skip x; cbn [sub_scan];
    [simpl; tauto |].
  destruct skip as [| k].
  - scan_cases n.
    + simpl. intros [-> | H]; [auto | apply IH in H; tauto].
    + intros H. apply in_app_or in H as [H | H]; [auto |].
      apply IH in H. simpl. tauto.
    + simpl. intros [-> | H]; [auto | apply IH in H; tauto].
  - intros H. apply IH in H. simpl. tauto.
Qed.

Lemma sub_scan_length anchored p repl s : forall at_start skip,
  (length repl <= 1)%nat ->
  (length (sub_scan anchored p repl at_start skip s) <= length s)%nat.
Proof.
  induction s as [| c s IH]; intros at_start skip Hr; cbn [sub_scan];
    [simpl; lia |].
  destruct skip as [| k].
  - scan_cases n; cbn [length].
    + specialize (IH false O Hr). lia.
    + rewrite length_app. specialize (IH false n Hr). lia.
    + specialize (IH false O Hr). lia.
  - specialize (IH false k Hr). cbn [length]. lia.
Qed.

Lemma longest_match_none eol s : longest_match eol RNone s = None.
Proof. induction s as [| c s IH]; simpl; [| rewrite IH]; reflexivity. Qed.

Lemma longest_match_eps s : longest_match false REps s = Some O.
Proof.
  destruct s as [| c s]; simpl; [reflexivity |].
  rewrite longest_match_none. reflexivity.
Qed.

Lemma longest_match_set cs c s :
  longest_match false (RSet cs) (c :: s)
  = if set_test false cs c then Some 1%nat else None.
Proof.
  simpl. destruct (set_test false cs c).
  - rewrite longest_match_eps. reflexivity.
  - rewrite longest_match_none. reflexivity.
Qed.

(** A pattern that accepts the empty string matches at every position. *)
Lemma longest_match_nullable r s :
  nullable r = true -> exists n, longest_match false r s = Some n.
Proof.
  intros H. destruct s as [| c s]; simpl; rewrite H; simpl; [eauto |].
  destruct (longest_match false (deriv false c r) s); eauto.
Qed.

Lemma longest_match_spaces c s :
  is_space c = true ->
  exists n, longest_match false (pat_re spaces_re) (c :: s) = Some (S n).
Proof.
  intros Hc. simpl. rewrite Hc. simpl.
  destruct (longest_match_nullable (RCat REps (RStar r_space)) s eq_refl)
    as [n ->].
  eauto.
Qed.

(** Removing the bullets is filtering them out. *)
Lemma re_sub_bullets s : forall at_start,
  sub_scan false bullet_re [] at_start O s
  = List.filter (fun c => negb (set_test false bullet_chars c)) s.
Proof.
  induction s as [| c s IH]; intros at_start; [reflexivity |].
  cbn [sub_scan andb pat_eol pat_re bullet_re List.filter].
  rewrite longest_match_set.
  destruct (set_test false bullet_chars c); cbn [negb app]; rewrite IH;
    reflexivity.
Qed.

(** After collapsing, the only white space left is U+0020. *)
Lemma re_sub_spaces s : forall at_start skip x,
  In x (sub_scan false spaces_re [32%N] at_start skip s) ->
  is_space x = true -> x = 32%N.
Proof.
  induction s as [| c s IH]; intros at_start skip x; cbn [sub_scan];
    [simpl; tauto |].
  destruct skip as [| k]; [| apply IH].
  change (pat_eol spaces_re) with false. cbn [andb].
  destruct (is_space c) eqn:Hc.
  - destruct (longest_match_spaces c s Hc) as [n E]. rewrite E.
    simpl. intros [<- | H]; [reflexivity | eapply IH, H].
  - scan_cases n.
    + simpl. intros [<- | H] Hx; [congruence | eapply IH; eassumption].
    + simpl. intros [<- | H] Hx; [reflexivity | eapply IH; eassumption].
    + simpl. intros [<- | H] Hx; [congruence | eapply IH; eassumption].
Qed.

End SubstitutionFacts.

(** ** The text cleaner *)

Section Cleaner.
Context {U : UnicodeData}.

Lemma re_sub_delete_In anchored p s x :
  In x (re_sub anchored p [] s) -> In x s.
Proof.
  unfold re_sub. intros H. apply sub_scan_In in H as [H | []]. exact H.
Qed.

Lemma bullet_test c :
  set_test false bullet_chars c = true <-> In c bullet_points.
Proof.
  unfold set_test, bullet_chars, bullet_points. cbn [existsb atom_test In].
  rewrite !orb_true_iff, !N.eqb_eq. intuition congruence.
Qed.

(** X7: the cleaned text contains none of the bullet glyphs and neither
    starts nor ends with white space. *)
Theorem clean_heading_text_no_bullets (t : text) :
  (forall c, In c (clean_heading_text t) -> ~ In c bullet_points) /\
  strip (clean_heading_text t) = clean_heading_text t /\
  (forall c s, clean_heading_text t = c :: s -> is_space c = false) /\
  (forall c s, rev (clean_heading_text t) = c :: s -> is_space c = false).
Proof.
  unfold clean_heading_text. cbv zeta.
  split; [| split; [apply strip_idem | split]].
  - intros c H. apply strip_In, re_sub_delete_In in H.
    unfold re_sub in H. rewrite re_sub_bullets in H.
    apply filter_In in H as [_ H]. apply negb_true_iff in H.
    rewrite <- bullet_test. congruence.
  - intros c s. apply strip_first.
  - intros c s. apply strip_last.
Qed.

(** X8: cleaning adds nothing but spaces: every character of the result is
    a character of the input or U+0020, every white-space character of the
    result is U+0020 (tabs and line breaks never survive), and the result is
    not longer than the input. *)
Theorem clean_heading_text_conservative (t : text) :
  (forall c, In c (clean_heading_text t) -> In c t \/ c = 32%N) /\
  (forall c, In c (clean_heading_text t) -> is_space c = true -> c = 32%N) /\
  (length (clean_heading_text t) <= length t)%nat.
Proof.
  unfold clean_heading_text. cbv zeta. split; [| split].
  - intros c H.
    apply strip_In, re_sub_delete_In, re_sub_delete_In, re_sub_delete_In in H.
    unfold re_sub in H. apply sub_scan_In in H as [H | [<- | []]];
      [left; apply strip_In, H | right; reflexivity].
  - intros c H.
    apply strip_In, re_sub_delete_In, re_sub_delete_In, re_sub_delete_In in H.
    unfold re_sub in H. eapply re_sub_spaces, H.
  - etransitivity; [apply strip_length |]. unfold re_sub.
    repeat (etransitivity; [apply sub_scan_length; simpl; lia |]).
    apply strip_length.
Qed.

End Cleaner.

(** ** What the extraction returns *)

Lemma filter_all_false {A} (f : A -> bool) l :
  (forall x, In x l -> f x = false) -> List.filter f l = [].
Proof.
  induction l as [| a l IH]; intros H; simpl; [reflexivity |].
  rewrite (H a) by (left; reflexivity).
  apply IH. intros x Hx. apply H. right. exact Hx.
Qed.

Lemma flat_map_all_nil {A B} (f : A -> list B) l :
  (forall x, In x l -> f x = []) -> flat_map f l = [].
Proof.
  induction l as [| a l IH]; intros H; simpl; [reflexivity |].
  rewrite (H a) by (left; reflexivity).
  apply IH. intros x Hx. apply H. right. exact Hx.
Qed.

Lemma omap_all_none {A B} (f : A -> option B) (l : list A) :
  (forall x, In x l -> f x = None) -> omap f l = [].
Proof.
  induction l as [| a l IH]; intros H; [reflexivity |].
  cbn [omap list_omap]. rewrite (H a) by (left; reflexivity).
  apply IH. intros x Hx. apply H. right. exact Hx.
Qed.

Lemma omap_ext_all {A B} (f g : A -> option B) (l : list A) :
  (forall x, f x = g x) -> omap f l = omap g l.
Proof.
  intros H. induction l as [| a l IH]; [reflexivity |].
  cbn [omap list_omap]. rewrite (H a). destruct (g a); [f_equal |]; exact IH.
Qed.

Lemma post_process_In l h : h ∈ post_process_headings l -> h ∈ l.
Proof.
  unfold post_process_headings. destruct l as [| a l]; [auto |].
  rewrite sorted_by_perm. apply unique_headings_keys.
Qed.

Section ExtractionFacts.
Context {U : UnicodeData}.

Lemma heading_of_line_some th n l h :
  heading_of_line th n l = Some h ->
  page h = (n + 1)%Z /\
  htext h = clean_heading_text (acc_text (merge_line (line_spans l))) /\
  (2 <= len (htext h) <= 200)%Z.
Proof.
  unfold heading_of_line.
  set (t := clean_heading_text (acc_text (merge_line (line_spans l)))).
  destruct (Z.ltb_spec (len t) 2); [discriminate |].
  destruct (Z.ltb_spec 200 (len t)); [discriminate |]. cbn [orb].
  destruct (_ || _ || _ || _); [| discriminate].
  destruct (classify_heading_level _ _ _ _ _); [| discriminate].
  intros E. injection E as <-. cbn. repeat split; lia.
Qed.

Lemma collect_headings_In th pages : forall n h,
  h ∈ collect_headings th n pages ->
  (n + 1 <= page h <= n + Z.of_nat (length pages))%Z /\
  exists p l, In p pages /\ In l (lines_of p) /\
              heading_of_line th (page h - 1) l = Some h.
Proof.
  induction pages as [| p pages IH]; intros n h; cbn [collect_headings].
  - intros H. inversion H.
  - rewrite elem_of_app. intros [H | H].
    + apply list_elem_of_omap in H as (l & Hl & E).
      destruct (heading_of_line_some _ _ _ _ E) as (Hp & _).
      split; [cbn [length]; lia |].
      exists p, l. split; [left; reflexivity |].
      split; [apply list_elem_of_In, Hl |].
      rewrite Hp. replace (n + 1 - 1)%Z with n by lia. exact E.
    + destruct (IH _ _ H) as (Hp & q & l & Hq & Hl & E).
      split; [cbn [length]; lia |].
      exists q, l. split; [right; exact Hq | auto].
Qed.

(** X9: every heading the extraction returns comes from a readable document,
    carries a page number between 1 and the number of pages, and has a text
    of 2 to 200 characters that is the cleaned text of a line of that page
    (so it neither starts nor ends with white space). *)
Theorem extracted_headings_well_formed th f h :
  h ∈ snd (snd (extract_headings_from_pdf th f)) ->
  exists doc pages,
    pdf_document f = Some doc /\ read_pages doc = Some pages /\
    (1 <= page h <= Z.of_nat (length pages))%Z /\
    (2 <= len (htext h) <= 200)%Z /\
    strip (htext h) = htext h /\
    exists p l, nth_error pages (Z.to_nat (page h - 1)) = Some p /\
                In l (lines_of p) /\
                htext h = clean_heading_text (acc_text (merge_line (line_spans l))).
Proof.
  unfold extract_headings_from_pdf.
  destruct (pdf_document f) as [doc |] eqn:Hd; [| intros H; inversion H].
  destruct (read_pages doc) as [pages |] eqn:Hr; [| intros H; inversion H].
  cbn [snd]. intros H. apply post_process_In in H.
  exists doc, pages. split; [reflexivity |]. split; [exact Hr |].
  revert H. generalize (update_thresholds th (all_font_sizes pages)).
  intros th' H.
  assert (G : forall ps n, h ∈ collect_headings th' n ps ->
              exists p l, nth_error ps (Z.to_nat (page h - 1 - n)) = Some p /\
                          In l (lines_of p) /\
                          heading_of_line th' (page h - 1) l = Some h).
  { induction ps as [| p ps IHps]; intros n; cbn [collect_headings].
    - intros Hn. inversion Hn.
    - rewrite elem_of_app. intros [Hh | Hh].
      + apply list_elem_of_omap in Hh as (l & Hl & E).
        destruct (heading_of_line_some _ _ _ _ E) as (Hp & _).
        exists p, l. rewrite Hp.
        replace (n + 1 - 1 - n)%Z with 0%Z by lia.
        replace (n + 1 - 1)%Z with n by lia.
        split; [reflexivity |]. split; [apply list_elem_of_In, Hl | exact E].
      + destruct (collect_headings_In _ _ _ _ Hh) as [Hb _].
        destruct (IHps _ Hh) as (q & l & Hq & Hl & E).
        exists q, l. split; [| auto].
        replace (Z.to_nat (page h - 1 - n))
          with (S (Z.to_nat (page h - 1 - (n + 1)))) by lia.
        exact Hq. }
  destruct (collect_headings_In _ _ _ _ H) as [Hb _].
  destruct (G _ _ H) as (p & l & Hp & Hl & E).
  destruct (heading_of_line_some _ _ _ _ E) as (_ & Ht & Hlen).
  split; [lia |]. split; [exact Hlen |].
  split; [rewrite Ht; unfold clean_heading_text; apply strip_idem |].
  exists p, l. replace (page h - 1 - 0)%Z with (page h - 1)%Z in Hp by lia.
  auto.
Qed.

Lemma extracted_title_nonempty th f t :
  fst (snd (extract_headings_from_pdf th f)) = Some t -> t <> [].
Proof.
  unfold extract_headings_from_pdf, extract_title_from_metadata,
    extract_title_from_first_page.
  destruct (pdf_document f) as [doc |]; [| discriminate].
  destruct (read_pages doc) as [pages |]; [| discriminate]. cbn [fst snd].
  destruct (pdf_metadata_title f) as [m |]; [| discriminate].
  destruct (nonempty m); [| discriminate].
  destruct (strip m) as [| c s]; cbn [nonempty]; [discriminate |].
  intros H. injection H as <-. discriminate.
Qed.

(** X10: a title returned by the extraction is never empty: it is the
    metadata title with the surrounding white space removed (a metadata
    title of white space only counts as absent). *)
Theorem extracted_title_is_stripped_metadata th f t :
  fst (snd (extract_headings_from_pdf th f)) = Some t ->
  t <> [] /\ strip t = t /\
  exists m, pdf_metadata_title f = Some m /\ t = strip m.
Proof.
  unfold extract_headings_from_pdf, extract_title_from_metadata,
    extract_title_from_first_page.
  destruct (pdf_document f) as [doc |]; [| discriminate].
  destruct (read_pages doc) as [pages |]; [| discriminate]. cbn [fst snd].
  destruct (pdf_metadata_title f) as [m |]; [| discriminate].
  destruct (nonempty m); [| discriminate].
  destruct (strip m) as [| c s] eqn:E; cbn [nonempty]; [discriminate |].
  intros H. injection H as <-.
  split; [discriminate |]. split; [rewrite <- E; apply strip_idem |].
  exists m. auto.
Qed.

(** X11: a readable document without any non-blank span (no pages, no text
    blocks, or blank spans only) yields no heading and leaves the thresholds
    of the extractor untouched. *)
Theorem blank_document_yields_nothing th f doc pages :
  pdf_document f = Some doc -> read_pages doc = Some pages ->
  (forall p l sp, In p pages -> In l (lines_of p) -> In sp (line_spans l) ->
                  nonblank sp = false) ->
  fst (extract_headings_from_pdf th f) = th /\
  snd (snd (extract_headings_from_pdf th f)) = [].
Proof.
  intros Hd Hp Hblank. unfold extract_headings_from_pdf. rewrite Hd, Hp.
  cbn [fst snd].
  assert (Hs : all_font_sizes pages = []).
  { unfold all_font_sizes. apply flat_map_all_nil. intros p Hin.
    apply flat_map_all_nil. intros l Hl.
    rewrite filter_all_false; [reflexivity |].
    intros sp Hsp. apply (Hblank p l sp); assumption. }
  rewrite Hs. cbn [update_thresholds nonempty_list]. split; [reflexivity |].
  assert (Hc : forall ps n, (forall p, In p ps -> In p pages) ->
                            collect_headings th n ps = []).
  { induction ps as [| p ps IH]; intros n Hsub; cbn [collect_headings];
      [reflexivity |].
    rewrite IH by (intros q Hq; apply Hsub; right; exact Hq).
    rewrite app_nil_r. apply omap_all_none. intros l Hl.
    unfold heading_of_line. rewrite merge_line_filter.
    rewrite filter_all_false; [reflexivity |].
    intros sp Hsp. apply (Hblank p l sp); [| exact Hl | exact Hsp].
    apply Hsub. left. reflexivity. }
  rewrite Hc by auto. reflexivity.
Qed.

End ExtractionFacts.

Lemma extracted_headings_witness :
  page_number_heading
    ∈ snd (snd (@extract_headings_from_pdf ascii_only init_thresholds
                  page_number_file)) /\
  (2 <= len (htext page_number_heading) <= 200)%Z.
Proof.
  assert (H : page_number_heading
                ∈ snd (snd (@extract_headings_from_pdf ascii_only
                              init_thresholds page_number_file))).
  { rewrite page_number_reaches_outline. left. }
  split; [exact H |].
  destruct (@extracted_headings_well_formed ascii_only init_thresholds
              page_number_file page_number_heading H)
    as (doc & pages & _ & _ & _ & Hlen & _).
  exact Hlen.
Defined.

Lemma extracted_title_witness :
  fst (snd (@extract_headings_from_pdf ascii_only init_thresholds titled_file))
  = Some (cp "Annual Report") /\
  cp "Annual Report" <> [].
Proof.
  assert (H : fst (snd (@extract_headings_from_pdf ascii_only init_thresholds
                          titled_file)) = Some (cp "Annual Report")).
  { vm_compute. reflexivity. }
  split; [exact H |].
  exact (proj1 (@extracted_title_is_stripped_metadata ascii_only
                  init_thresholds titled_file _ H)).
Defined.

Lemma blank_document_witness :
  (forall p l sp, In p [blank_page] -> In l (lines_of p) ->
                  In sp (line_spans l) -> nonblank sp = false) /\
  snd (snd (@extract_headings_from_pdf ascii_only init_thresholds blank_file))
  = [].
Proof.
  assert (H : forall p l sp, In p [blank_page] -> In l (lines_of p) ->
                             In sp (line_spans l) -> nonblank sp = false).
  { intros p l sp [<- | []] [<- | []] [<- | []]. reflexivity. }
  split; [exact H |].
  exact (proj2 (@blank_document_yields_nothing ascii_only init_thresholds
                  blank_file _ _ eq_refl eq_refl H)).
Defined.

(** ** The thresholds over several documents *)

Lemma update_thresholds_ordered th sizes :
  thresholds_ordered th -> thresholds_ordered (update_thresholds th sizes).
Proof.
  intros Hth.
  destruct (Nat.lt_ge_cases (length (distinct sizes)) 4) as [Hn | Hn].
  - rewrite update_thresholds_few by exact Hn. exact Hth.
  - destruct (update_thresholds_many th sizes Hn)
      as (s0 & s1 & s2 & s3 & rest & Hss & ->).
    pose proof (sorted_sizes_decreasing sizes) as Hdec. rewrite Hss in Hdec.
    apply StronglySorted_inv in Hdec as [Hdec _].
    apply StronglySorted_inv in Hdec as [Hdec H1].
    apply StronglySorted_inv in Hdec as [_ H2].
    rewrite List.Forall_forall in H1, H2.
    split; simpl; apply Qlt_le_weak.
    + apply H2. left. reflexivity.
    + apply H1. left. reflexivity.
Qed.

Lemma update_thresholds_idem th sizes :
  update_thresholds (update_thresholds th sizes) sizes
  = update_thresholds th sizes.
Proof.
  destruct (Nat.lt_ge_cases (length (distinct sizes)) 4) as [Hn | Hn].
  - rewrite !update_thresholds_few by exact Hn. reflexivity.
  - destruct (update_thresholds_many th sizes Hn)
      as (s0 & s1 & s2 & s3 & rest & Hss & E).
    destruct (update_thresholds_many (update_thresholds th sizes) sizes Hn)
      as (t0 & t1 & t2 & t3 & rest' & Hss' & E').
    rewrite E', E. rewrite Hss in Hss'. injection Hss' as <- <- <- <- <-.
    reflexivity.
Qed.

Lemma update_thresholds_title th sizes :
  th_title (update_thresholds th sizes) = th_title th.
Proof.
  unfold update_thresholds. destruct (nonempty_list sizes); [| reflexivity].
  destruct (4 <=? length (sorted_sizes sizes))%nat; reflexivity.
Qed.

Section ThresholdsOverDocuments.
Context {U : UnicodeData}.

Lemma extract_thresholds_ordered th f :
  thresholds_ordered th ->
  thresholds_ordered (fst (extract_headings_from_pdf th f)).
Proof.
  intros H. rewrite extract_thresholds.
  destruct (pdf_document f) as [doc |]; [| exact H].
  destruct (read_pages doc); [| exact H].
  apply update_thresholds_ordered, H.
Qed.

(** X12: the order h1 >= h2 >= h3 of the thresholds is an invariant of the
    loop of [main]: if the extractor starts with ordered thresholds (as the
    defaults are), every document of the batch is classified with ordered
    thresholds. *)
Theorem thresholds_stay_ordered th (files : list PdfFile) :
  thresholds_ordered th ->
  Forall (fun r => thresholds_ordered (fst r)) (process_all th files).
Proof.
  revert th. induction files as [| f files IH]; intros th Hth;
    cbn [process_all]; constructor.
  - rewrite process_pdf_thresholds. apply extract_thresholds_ordered, Hth.
  - apply IH. rewrite process_pdf_thresholds.
    apply extract_thresholds_ordered, Hth.
Qed.

Lemma level_by_size_reads_h th th' size bold t :
  th_h1 th = th_h1 th' -> th_h2 th = th_h2 th' -> th_h3 th = th_h3 th' ->
  level_by_size th size bold t = level_by_size th' size bold t.
Proof. unfold level_by_size. intros -> -> ->. reflexivity. Qed.

Lemma collect_headings_reads_h th th' pages :
  th_h1 th = th_h1 th' -> th_h2 th = th_h2 th' -> th_h3 th = th_h3 th' ->
  forall n, collect_headings th n pages = collect_headings th' n pages.
Proof.
  intros E1 E2 E3. induction pages as [| p pages IH]; intros n;
    cbn [collect_headings]; [reflexivity |].
  rewrite IH. f_equal. apply omap_ext_all.
  intros l. unfold heading_of_line, classify_heading_level.
  rewrite (level_by_size_reads_h th th') by assumption. reflexivity.
Qed.

(** X13: for a readable document with at least four distinct sizes what an
    extractor returns does not depend on the thresholds it holds before the
    call, that is, on the documents it processed earlier; and no call ever
    changes the 'title' entry of the thresholds. *)
Theorem calibration_overrides_history th1 th2 f doc pages :
  pdf_document f = Some doc -> read_pages doc = Some pages ->
  (4 <= length (distinct (all_font_sizes pages)))%nat ->
  snd (extract_headings_from_pdf th1 f) = snd (extract_headings_from_pdf th2 f)
  /\ th_h1 (fst (extract_headings_from_pdf th1 f))
     = th_h1 (fst (extract_headings_from_pdf th2 f))
  /\ th_h2 (fst (extract_headings_from_pdf th1 f))
     = th_h2 (fst (extract_headings_from_pdf th2 f))
  /\ th_h3 (fst (extract_headings_from_pdf th1 f))
     = th_h3 (fst (extract_headings_from_pdf th2 f))
  /\ th_title (fst (extract_headings_from_pdf th1 f)) = th_title th1.
Proof.
  intros Hd Hp Hn. unfold extract_headings_from_pdf. rewrite Hd, Hp.
  cbn [fst snd].
  destruct (update_thresholds_many th1 _ Hn)
    as (s0 & s1 & s2 & s3 & rest & Hss & E1).
  destruct (update_thresholds_many th2 _ Hn)
    as (t0 & t1 & t2 & t3 & rest' & Hss' & E2).
  rewrite Hss in Hss'. injection Hss' as <- <- <- <- <-.
  rewrite E1, E2. cbn [th_h1 th_h2 th_h3 th_title].
  split; [| auto].
  rewrite (collect_headings_reads_h _
             {| th_title := th_title th2; th_h1 := s1; th_h2 := s2;
                th_h3 := s3 |}); reflexivity.
Qed.

(** X14: processing the same file twice in a row with one extractor gives
    the second time what it gave the first time, state included. *)
Theorem reprocessing_is_stable th f :
  extract_headings_from_pdf (fst (extract_headings_from_pdf th f)) f
  = extract_headings_from_pdf th f.
Proof.
  rewrite extract_thresholds. unfold extract_headings_from_pdf.
  destruct (pdf_document f) as [doc |]; [| reflexivity].
  destruct (read_pages doc) as [pages |]; [| reflexivity].
  rewrite update_thresholds_idem. reflexivity.
Qed.

End ThresholdsOverDocuments.

Lemma thresholds_stay_ordered_witness :
  thresholds_ordered init_thresholds /\
  Forall (fun r => thresholds_ordered (fst r))
    (@process_all ascii_only init_thresholds [four_sizes_file; one_size_file]).
Proof.
  assert (H : thresholds_ordered init_thresholds).
  { split; vm_compute; discriminate. }
  split; [exact H |].
  exact (@thresholds_stay_ordered ascii_only init_thresholds _ H).
Defined.

Lemma calibration_overrides_history_witness :
  (4 <= length (distinct (all_font_sizes [four_sizes_page])))%nat /\
  snd (@extract_headings_from_pdf ascii_only init_thresholds four_sizes_file)
  = snd (@extract_headings_from_pdf ascii_only
           {| th_title := 16; th_h1 := 40; th_h2 := 30; th_h3 := 20 |}
           four_sizes_file).
Proof.
  assert (H : (4 <= length (distinct (all_font_sizes [four_sizes_page])))%nat).
  { vm_compute. lia. }
  split; [exact H |].
  exact (proj1 (@calibration_overrides_history ascii_only init_thresholds
                  {| th_title := 16; th_h1 := 40; th_h2 := 30; th_h3 := 20 |}
                  four_sizes_file _ _ eq_refl eq_refl H)).
Defined.

(** ** The rule for bold text *)

(** X15: when h3 is at most 11 (as with the defaults), boldness never
    produces H2: a level found for bold text is the level the thresholds
    give anyway, or it is H3 for a text of fewer than 100 characters whose
    size lies between 9 and h3. *)
Theorem bold_rule_never_gives_h2 th size (t : text) lv :
  (th_h3 th <= 11)%Q ->
  level_by_size th size true t = Some lv ->
  level_by_size th size false t = Some lv \/
  (lv = H3 /\ (9 <= size)%Q /\ (size < th_h3 th)%Q /\ (len (strip t) < 100)%Z).
Proof.
  intros H11. unfold level_by_size, Qge_bool.
  destruct (Qle_bool (th_h1 th) size); [auto |].
  destruct (Qle_bool (th_h2 th) size); [auto |].
  destruct (Qle_bool (th_h3 th) size) eqn:E3; [auto |]. cbn [andb].
  apply not_true_iff_false in E3. rewrite Qle_bool_iff in E3.
  apply Qnot_le_lt in E3.
  destruct (Z.ltb_spec (len (strip t)) 100) as [Hl | _]; [| discriminate].
  destruct (Qle_bool 11 size) eqn:E11.
  - apply Qle_bool_iff in E11. exfalso.
    apply (Qle_not_lt _ _ E11). eapply Qlt_le_trans; eassumption.
  - destruct (Qle_bool 9 size) eqn:E9; [| discriminate].
    apply Qle_bool_iff in E9. intros E. injection E as <-. right. auto.
Qed.

Lemma bold_rule_witness :
  (th_h3 init_thresholds <= 11)%Q /\
  level_by_size init_thresholds (19 # 2) true (cp "Summary") = Some H3 /\
  (level_by_size init_thresholds (19 # 2) false (cp "Summary") = Some H3 \/
   (H3 = H3 /\ (9 <= 19 # 2)%Q /\ (19 # 2 < th_h3 init_thresholds)%Q /\
    (len (strip (cp "Summary")) < 100)%Z)).
Proof.
  assert (H : (th_h3 init_thresholds <= 11)%Q) by (vm_compute; discriminate).
  split; [exact H |]. split; [reflexivity |].
  exact (bold_rule_never_gives_h2 init_thresholds (19 # 2) (cp "Summary") H3
           H eq_refl).
Defined.

(** ** More on the noise filter *)

Section NoiseEdges.
Context {U : UnicodeData}.

(** X16: [is_noise] ignores white space around the text, and a text that is
    empty or consists of white space only is noise. *)
Theorem is_noise_ignores_surrounding_space (t : text) :
  is_noise (strip t) = is_noise t /\
  (strip t = [] -> is_noise t = true).
Proof.
  split.
  - unfold is_noise. rewrite strip_idem. reflexivity.
  - intros H. rewrite is_noise_refines. unfold is_noise_spec. rewrite H.
    reflexivity.
Qed.

(** X17: a text of four or more characters (after stripping) with at least
    one character that is not a leader or bullet character is never noise. *)
Theorem text_with_other_character_is_not_noise (t : text) (c : N) :
  (4 <= length (strip t))%nat -> In c (strip t) -> ~ In c leader_set ->
  is_noise t = false.
Proof.
  intros Hlen Hc Hout. rewrite is_noise_refines. unfold is_noise_spec.
  cbv zeta. set (s := strip t) in *.
  assert (Ha : is_leader_line s = false).
  { unfold is_leader_line. apply andb_false_iff. right.
    apply not_true_iff_false. rewrite forallb_forall. intros H.
    specialize (H c Hc). apply existsb_exists in H as (x & Hx & E).
    apply N.eqb_eq in E as ->. exact (Hout Hx). }
  assert (Hb : is_page_number s = false).
  { destruct s as [| a [| b [| d [| e s]]]]; simpl in Hlen; try lia.
    reflexivity. }
  assert (Hs : is_short_fragment s = false).
  { unfold is_short_fragment. destruct (Nat.leb_spec (length s) 3); [lia |].
    reflexivity. }
  rewrite Ha, Hb, Hs. reflexivity.
Qed.

End NoiseEdges.

Lemma text_with_other_character_witness :
  (4 <= length (strip (cp "1.1 Overview")))%nat /\
  @is_noise ascii_only (cp "1.1 Overview") = false.
Proof.
  assert (H : (4 <= length (strip (cp "1.1 Overview")))%nat)
    by (vm_compute; lia).
  split; [exact H |].
  apply (@text_with_other_character_is_not_noise ascii_only
           (cp "1.1 Overview") 79%N H).
  - vm_compute. tauto.
  - vm_compute. intros [E | [E | [E | [E | [E | [E | [E | []]]]]]]];
      discriminate E.
Defined.

Lemma is_noise_blank_witness :
  strip (cp "   ") = [] /\ @is_noise ascii_only (cp "   ") = true.
Proof.
  split; [reflexivity |].
  exact (proj2 (@is_noise_ignores_surrounding_space ascii_only (cp "   "))
           eq_refl).
Defined.

(** ** Sorted permutations *)

Section SortedUnique.
Context {A : Type}.
Variable lt : A -> A -> bool.
Hypothesis lt_asym : forall a b, lt a b = true -> lt b a = false.
Hypothesis lt_negtrans :
  forall a b c, lt a b = false -> lt b c = false -> lt a c = false.

Lemma sorted_perm_unique l1 : forall l2,
  StronglySorted (not_after lt) l1 -> StronglySorted (not_after lt) l2 ->
  l1 ≡ₚ l2 ->
  (forall a b, In a l1 -> In b l1 -> lt a b = false -> lt b a = false -> a = b) ->
  l1 = l2.
Proof.
  induction l1 as [| a l1 IH]; intros l2 H1 H2 Hp Hd.
  - symmetry. apply Permutation_nil. exact Hp.
  - destruct l2 as [| b l2].
    + symmetry in Hp. apply Permutation_nil in Hp. discriminate.
    + apply StronglySorted_inv in H1 as [H1 Ha].
      apply StronglySorted_inv in H2 as [H2 Hb].
      rewrite List.Forall_forall in Ha, Hb.
      assert (E : a = b).
      { assert (Hab : In a (b :: l2)).
        { eapply Permutation_in; [exact Hp | left; reflexivity]. }
        assert (Hba : In b (a :: l1)).
        { eapply Permutation_in; [symmetry; exact Hp | left; reflexivity]. }
        destruct Hab as [-> | Hab]; [reflexivity |].
        destruct Hba as [-> | Hba]; [reflexivity |].
        apply Hd; [left; reflexivity | right; exact Hba | |].
        - apply (Hb a Hab).
        - apply (Ha b Hba). }
      subst b. f_equal. apply IH; [exact H1 | exact H2 | |].
      * eapply Permutation_cons_inv, Hp.
      * intros x y Hx Hy. apply Hd; right; assumption.
Qed.

(** Sorting does not depend on the order of the input as long as no two
    different elements are level. *)
Lemma sorted_by_perm_invariant l l' :
  l ≡ₚ l' ->
  (forall a b, In a l -> In b l -> lt a b = false -> lt b a = false -> a = b) ->
  sorted_by lt l = sorted_by lt l'.
Proof.
  intros Hp Hd. apply sorted_perm_unique.
  - apply sorted_by_sorted; assumption.
  - apply sorted_by_sorted; assumption.
  - rewrite !sorted_by_perm. exact Hp.
  - intros a b Ha Hb. apply Hd.
    + eapply Permutation_in; [apply sorted_by_perm | exact Ha].
    + eapply Permutation_in; [apply sorted_by_perm | exact Hb].
Qed.

End SortedUnique.

(** ** Merging title candidates *)

Lemma pairQ_lt_iff a b :
  pairQ_lt a b = true <->
  (fst a < fst b)%Q \/ ((fst a == fst b)%Q /\ (snd a < snd b)%Q).
Proof.
  unfold pairQ_lt. destruct (Qeq_bool (fst a) (fst b)) eqn:E; simpl.
  - apply Qeq_bool_iff in E. rewrite Qlt_bool_iff. split; [auto |].
    intros [H | [_ H]]; [| exact H]. rewrite E in H.
    destruct (Qlt_irrefl _ H).
  - apply Qeq_bool_neq in E. rewrite Qlt_bool_iff. split; [auto |].
    intros [H | [H _]]; [exact H | contradiction].
Qed.

Lemma pairQ_lt_false a b :
  pairQ_lt a b = false <->
  (fst b < fst a)%Q \/ ((fst a == fst b)%Q /\ (snd b <= snd a)%Q).
Proof.
  rewrite <- not_true_iff_false, pairQ_lt_iff. split.
  - intros H. destruct (Q_dec (fst a) (fst b)) as [[L | G] | E].
    + tauto.
    + auto.
    + right. split; [exact E |]. apply Qnot_lt_le. tauto.
  - intros [H | [E H]] [L | [E' L]].
    + exact (Qlt_irrefl _ (Qlt_trans _ _ _ H L)).
    + rewrite E' in H. exact (Qlt_irrefl _ H).
    + rewrite E in L. exact (Qlt_irrefl _ L).
    + exact (Qle_not_lt _ _ H L).
Qed.

Lemma cand_lt_asym a b : cand_lt a b = true -> cand_lt b a = false.
Proof.
  unfold cand_lt. rewrite pairQ_lt_iff, pairQ_lt_false.
  intros [H | [E H]]; [auto |]. right.
  split; [symmetry; exact E | apply Qlt_le_weak, H].
Qed.

Lemma cand_lt_negtrans a b c :
  cand_lt a b = false -> cand_lt b c = false -> cand_lt a c = false.
Proof.
  unfold cand_lt. rewrite !pairQ_lt_false. cbn [fst snd].
  intros [H1 | [E1 H1]] [H2 | [E2 H2]].
  - left. eapply Qlt_trans; eassumption.
  - left. rewrite <- E2. exact H1.
  - left. rewrite E1. exact H2.
  - right. split; [rewrite E1; exact E2 | eapply Qle_trans; eassumption].
Qed.

(** X18: [merge_title_candidates] fails exactly on the empty list (where the
    source indexes [title_candidates[0]]), and a title it returns neither
    starts nor ends with white space. *)
Theorem merge_title_candidates_result (cands : list Candidate) :
  (merge_title_candidates cands = None <-> cands = []) /\
  (forall t, merge_title_candidates cands = Some t -> strip t = t).
Proof.
  unfold merge_title_candidates. split.
  - split.
    + destruct (sorted_by cand_lt cands) as [| c0 rest] eqn:E; [| discriminate].
      intros _. apply Permutation_nil. rewrite <- E. apply sorted_by_perm.
    + intros ->. reflexivity.
  - destruct (sorted_by cand_lt cands) as [| c0 rest]; [discriminate |].
    intros t E. injection E as <-. apply strip_idem.
Qed.

(** X19: the merged title does not depend on the order in which the
    candidates were collected, provided no two different candidates are
    level in (font size, vertical position). *)
Theorem merge_title_candidates_order_independent (cands cands' : list Candidate) :
  cands ≡ₚ cands' ->
  (forall a b, In a cands -> In b cands ->
               cand_lt a b = false -> cand_lt b a = false -> a = b) ->
  merge_title_candidates cands' = merge_title_candidates cands.
Proof.
  intros Hp Hd. unfold merge_title_candidates.
  rewrite (sorted_by_perm_invariant cand_lt cand_lt_asym cand_lt_negtrans
             cands cands' Hp Hd).
  reflexivity.
Qed.

Lemma merge_title_candidates_order_witness :
  [(cp "World", 20%Q, 40%Q); (cp "Hello", 20%Q, 10%Q)]
    ≡ₚ [(cp "Hello", 20%Q, 10%Q); (cp "World", 20%Q, 40%Q)] /\
  merge_title_candidates [(cp "Hello", 20%Q, 10%Q); (cp "World", 20%Q, 40%Q)]
  = merge_title_candidates [(cp "World", 20%Q, 40%Q); (cp "Hello", 20%Q, 10%Q)].
Proof.
  assert (Hp : [(cp "World", 20%Q, 40%Q); (cp "Hello", 20%Q, 10%Q)]
                 ≡ₚ [(cp "Hello", 20%Q, 10%Q); (cp "World", 20%Q, 40%Q)])
    by apply perm_swap.
  split; [exact Hp |].
  apply (merge_title_candidates_order_independent _ _ Hp).
  intros a b [<- | [<- | []]] [<- | [<- | []]] H1 H2;
    try reflexivity; vm_compute in H1, H2; discriminate.
Defined.

(** ** Substrings *)

Lemma starts_with_iff p : forall s,
  starts_with p s = true <-> exists rest, s = p ++ rest.
Proof.
  induction p as [| a p IH]; intros s; simpl.
  - split; [eauto | reflexivity].
  - destruct s as [| b s].
    + split; [discriminate | intros (rest & E); discriminate].
    + rewrite andb_true_iff, N.eqb_eq, IH. split.
      * intros [-> (rest & ->)]. eauto.
      * intros (rest & E). injection E as -> ->. eauto.
Qed.

Lemma contains_iff needle : forall hay,
  contains needle hay = true <-> exists pre post, hay = pre ++ needle ++ post.
Proof.
  induction hay as [| c hay IH]; simpl; rewrite orb_true_iff, starts_with_iff.
  - split.
    + intros [(rest & E) | H]; [| discriminate]. exists [], rest. exact E.
    + intros (pre & post & E). left. destruct pre as [| x pre];
        [eauto | discriminate].
  - rewrite IH. split.
    + intros [(rest & E) | (pre & post & ->)].
      * exists [], rest. exact E.
      * exists (c :: pre), post. reflexivity.
    + intros (pre & post & E). destruct pre as [| x pre]; simpl in E.
      * left. eauto.
      * injection E as -> ->. right. eauto.
Qed.

Section SkipPage.
Context {U : UnicodeData}.

(** X20: [should_skip_page] looks for the words anywhere: text before or
    after a page text that is recognised never hides it. *)
Theorem should_skip_page_in_context (before t after : text) :
  should_skip_page t = true ->
  should_skip_page (before ++ t ++ after) = true.
Proof.
  unfold should_skip_page, lower. rewrite !contains_iff.
  intros (pre & post & E). rewrite !flat_map_app, E.
  exists (flat_map uni_lower_full before ++ pre),
         (post ++ flat_map uni_lower_full after).
  rewrite <- !app_assoc. reflexivity.
Qed.

End SkipPage.

Lemma should_skip_page_witness :
  @should_skip_page ascii_only (cp "Table Of CONTENTS") = true /\
  @should_skip_page ascii_only
     (cp "Page 2 - " ++ cp "Table Of CONTENTS" ++ cp " ....") = true.
Proof.
  assert (H : @should_skip_page ascii_only (cp "Table Of CONTENTS") = true)
    by (vm_compute; reflexivity).
  split; [exact H |].
  exact (@should_skip_page_in_context ascii_only _ _ _ H).
Defined.

(** ** What is written per document *)

Lemma StronglySorted_firstn {A} (R : A -> A -> Prop) n : forall l,
  StronglySorted R l -> StronglySorted R (firstn n l).
Proof.
  induction n as [| n IH]; intros l Hs; [constructor |].
  destruct l as [| a l]; [constructor |].
  apply StronglySorted_inv in Hs as [Hs Ha]. simpl. constructor.
  - apply IH, Hs.
  - rewrite List.Forall_forall in *. intros x Hx. apply Ha.
    rewrite <- (firstn_skipn n l). apply in_or_app. left. exact Hx.
Qed.

Lemma StronglySorted_map {A B} (R : A -> A -> Prop) (R' : B -> B -> Prop)
      (f : A -> B) l :
  (forall a b, R a b -> R' (f a) (f b)) ->
  StronglySorted R l -> StronglySorted R' (map f l).
Proof.
  intros H. induction 1 as [| a l Hs IH Ha]; simpl; constructor; [exact IH |].
  rewrite List.Forall_forall in *. intros y Hy.
  apply in_map_iff in Hy as (x & <- & Hx). auto.
Qed.

Lemma outline_order_page a b : outline_order a b -> (page a <= page b)%Z.
Proof. intros [H | [H _]]; lia. Qed.

Section WrittenResults.
Context {U : UnicodeData}.

(** The headings of every extraction are an assembled outline. *)
Lemma extract_is_assembled th f :
  exists l, snd (snd (extract_headings_from_pdf th f)) = post_process_headings l.
Proof.
  unfold extract_headings_from_pdf.
  destruct (pdf_document f) as [doc |]; [| exists []; reflexivity].
  destruct (read_pages doc); [| exists []; reflexivity].
  eexists. reflexivity.
Qed.

(** X21: whenever the output file can be written, [process_pdf] reports
    success, for unreadable input too; the written title is not empty (it
    is the title of the extraction, or "Document" when there is none); and
    the written outline has one entry per extracted heading, entries that
    differ pairwise in (text, page), and page numbers in ascending order. *)
Theorem written_output_well_formed th f :
  exists th' out,
    process_pdf th f true = (th', (true, Some out)) /\
    th' = fst (extract_headings_from_pdf th f) /\
    out_title out <> [] /\
    (match fst (snd (extract_headings_from_pdf th f)) with
     | Some t => out_title out = t
     | None => out_title out = cp "Document"
     end) /\
    length (out_outline out)
    = length (snd (snd (extract_headings_from_pdf th f))) /\
    NoDup ((fun e => (oe_text e, oe_page e)) <$> out_outline out) /\
    StronglySorted (fun a b => (oe_page a <= oe_page b)%Z) (out_outline out).
Proof.
  unfold process_pdf.
  pose proof (extract_is_assembled th f) as [l Hl].
  pose proof (extracted_title_nonempty th f) as Ht.
  destruct (extract_headings_from_pdf th f) as [th' [title headings]].
  cbn [fst snd] in *. subst headings.
  eexists _, _. split; [reflexivity |]. split; [reflexivity |].
  unfold format_output. cbn [out_title out_outline].
  split; [| split; [| split; [| split]]].
  - destruct title as [[| c t] |]; cbn [nonempty]; discriminate.
  - destruct title as [[| c t] |]; cbn [nonempty]; try reflexivity.
    exfalso. apply (Ht []); reflexivity.
  - apply length_map.
  - change (map ?g ?x) with (g <$> x). rewrite <- list_fmap_compose.
    apply (post_process_keys l).
  - eapply StronglySorted_map; [| apply StronglySorted_weaken
      with (R := not_after heading_lt); [| apply post_process_sorted]].
    + intros a b H. exact H.
    + intros a b H. apply outline_order_page, not_after_outline_order, H.
Qed.

(** X22: the sections of [process_single_pdf] differ pairwise in
    (heading, page) and their page numbers ascend. *)
Theorem sections_unique_and_ordered (f : PdfFile) :
  NoDup ((fun s => (sec_heading s, sec_page s))
           <$> res_sections (process_single_pdf f)) /\
  StronglySorted (fun a b => (sec_page a <= sec_page b)%Z)
    (res_sections (process_single_pdf f)).
Proof.
  unfold process_single_pdf.
  pose proof (extract_is_assembled init_thresholds f) as [l Hl].
  destruct (extract_headings_from_pdf init_thresholds f)
    as [th' [title headings]].
  cbn [fst snd res_sections] in *. subst headings. split.
  - change (map ?g ?x) with (g <$> x). rewrite <- list_fmap_compose.
    change ((fun s => (sec_heading s, sec_page s))
              ∘ (fun h => {| sec_heading := htext h; sec_page := page h;
                             sec_score := 9 # 10 |})) with hkey.
    eapply sublist_NoDup; [apply (post_process_keys l) |].
    apply fmap_sublist, sublist_take.
  - eapply StronglySorted_map; [| apply StronglySorted_firstn,
      StronglySorted_weaken with (R := not_after heading_lt);
      [| apply post_process_sorted]].
    + intros a b H. exact H.
    + intros a b H. apply outline_order_page, not_after_outline_order, H.
Qed.

End WrittenResults.

(** ** A batch with an unreadable file *)

Section Batch.
Context {U : UnicodeData}.

Lemma process_pdf_unreadable th f :
  (pdf_document f = None \/
   exists doc, pdf_document f = Some doc /\ read_pages doc = None) ->
  process_pdf th f true
  = (th, (true, Some {| out_title := cp "Document"; out_outline := [] |})).
Proof.
  intros H. unfold process_pdf. rewrite (extract_unreadable th f H).
  reflexivity.
Qed.

(** X23: in the loop of [main] a file that cannot be read is isolated: it
    gets the placeholder output, and every other file of the batch gets
    exactly the result it gets in the batch without that file. *)
Theorem unreadable_file_is_isolated th (before : list PdfFile) f after :
  (pdf_document f = None \/
   exists doc, pdf_document f = Some doc /\ read_pages doc = None) ->
  exists th',
    process_all th (before ++ f :: after)
    = firstn (length before) (process_all th (before ++ after))
      ++ (th', (true, Some {| out_title := cp "Document"; out_outline := [] |}))
      :: skipn (length before) (process_all th (before ++ after)).
Proof.
  intros H. revert th. induction before as [| g before IH]; intros th.
  - exists th. cbn [app process_all length firstn skipn].
    rewrite (process_pdf_unreadable th f H). reflexivity.
  - cbn [app process_all length firstn skipn].
    destruct (IH (fst (process_pdf th g true))) as [th' E].
    exists th'. rewrite E. reflexivity.
Qed.

End Batch.

Lemma unreadable_file_is_isolated_witness :
  pdf_document unreadable_file = None /\
  exists th',
    @process_all ascii_only init_thresholds
      ([four_sizes_file] ++ unreadable_file :: [one_size_file])
    = firstn 1 (@process_all ascii_only init_thresholds
                  ([four_sizes_file] ++ [one_size_file]))
      ++ (th', (true, Some {| out_title := cp "Document"; out_outline := [] |}))
      :: skipn 1 (@process_all ascii_only init_thresholds
                    ([four_sizes_file] ++ [one_size_file])).
Proof.
  split; [reflexivity |].
  exact (@unreadable_file_is_isolated ascii_only init_thresholds
           [four_sizes_file] unreadable_file [one_size_file]
           (or_introl eq_refl)).
Defined.

(** ** An unreadable document is reported as a success *)

Section FailureReport.
Context {U : UnicodeData}.

(** C4, on the code: for the file that cannot be opened, and for the document
    whose second page cannot be decoded, the extraction returns no title and
    no headings (nothing of the first page is kept).  [process_pdf] has a
    failure result ([False], nothing written), which it gives when the write
    fails; the unreadable file does not reach it: with a successful write
    [process_pdf] returns [True] and writes the placeholder title with an
    empty outline, which is also what the readable document without pages
    gets, and [process_single_pdf] gives both the same empty sections. *)
Theorem unreadable_file_reported_as_success :
  pdf_document unreadable_file = None /\
  extract_headings_from_pdf init_thresholds unreadable_file
  = (init_thresholds, (None, [])) /\
  extract_headings_from_pdf init_thresholds damaged_file
  = (init_thresholds, (None, [])) /\
  process_pdf init_thresholds unreadable_file false
  = (init_thresholds, (false, None)) /\
  process_pdf init_thresholds unreadable_file true
  = (init_thresholds,
     (true, Some {| out_title := cp "Document"; out_outline := [] |})) /\
  process_pdf init_thresholds unreadable_file true
  = process_pdf init_thresholds empty_file true /\
  res_sections (process_single_pdf unreadable_file) = [] /\
  res_sections (process_single_pdf empty_file) = [].
Proof.
  assert (Hu : pdf_document unreadable_file = None \/
               exists doc, pdf_document unreadable_file = Some doc
                           /\ read_pages doc = None)
    by (left; reflexivity).
  assert (Hd : pdf_document damaged_file = None \/
               exists doc, pdf_document damaged_file = Some doc
                           /\ read_pages doc = None)
    by (right; eexists; split; reflexivity).
  split; [reflexivity |].
  split; [apply extract_unreadable, Hu |].
  split; [apply extract_unreadable, Hd |].
  split; [unfold process_pdf;
          rewrite (extract_unreadable init_thresholds _ Hu); reflexivity |].
  split; [apply process_pdf_unreadable, Hu |].
  split; [rewrite (process_pdf_unreadable init_thresholds _ Hu); reflexivity |].
  split; [unfold process_single_pdf;
          rewrite (extract_unreadable init_thresholds _ Hu); reflexivity |].
  reflexivity.
Qed.

End FailureReport.
